(** * qiankun loader: a shallow embedding of [loader.ts] and of
    [loadMicroApp] (the module that follows it in the same source file,
    qiankun's [apis.ts]), with the properties of the lifecycle orchestrator
    stated and proved against it.

    Conventions of the embedding.
    - A promise is a computation over the state of the page that settles as
      fulfilled, rejected, or not at all ([Pending]: it awaits a deferred that
      nobody has resolved yet).  [then_] is [Promise.prototype.then] with one
      callback, and an [async] function body is a chain of [then_].
    - Functions that the loader receives from outside (hooks, exported
      lifecycles, the singular predicate, collaborators such as
      import-html-entry and the sandbox) are arbitrary: they may read and
      change the page, throw, or never settle.  Each carries an identifier,
      and every call of one is recorded, in order, in the ghost field [trace]
      of the world, which no such function can reach.
    - Module-level variables of the source ([prevAppUnmountedDeferred],
      [appConfigPormiseGetterMap], [frameworkConfiguration]) and the variables
      captured by the closures of [loadApp] are fields of the world.
    - One element of a [mount] or [unmount] array, and one call of [loadApp],
      run as a whole; the elements of the arrays of different applications
      may interleave. *)

From Stdlib Require Import List String Ascii NArith ZArith Lia Bool.
From stdpp Require Import gmap strings list pretty.
Import ListNotations.
Local Open Scope string_scope.

(** ** Values, exceptions and settled promises *)

(** What a [throw] or a rejection carries. *)
Inductive thrown : Type :=
| Error (msg : string)          (* new Error(msg) *)
| TypeError (msg : string)      (* a property read on null or undefined *)
| DOMException (name : string)  (* raised by the DOM itself *)
| Reason (payload : string).    (* any other value a callback rejects with *)

(** The (untyped) value a hook or lifecycle resolves with. *)
Inductive value : Type :=
| Undefined
| Val (payload : string).

Inductive outcome (A : Type) : Type :=
| Fulfilled (a : A)
| Rejected (reason : thrown)
| Pending.
Arguments Fulfilled {A} a.
Arguments Rejected {A} reason.
Arguments Pending {A}.

(** ** The DOM, as a heap of nodes *)

Module Dom.

Record Node : Type := mkNode {
  parentNode : option nat;
  childNodes : list nat;
  (* markup assigned through [innerHTML]; its parse is not materialised *)
  innerHTML : string;
  (* the markup hosted by the shadow root, when one is attached *)
  shadowRoot : option string;
  attributes : gmap string string
}.

Definition blank : Node :=
  {| parentNode := None; childNodes := []; innerHTML := "";
     shadowRoot := None; attributes := ∅ |}.

Abbreviation Heap := (gmap nat Node).

Definition node (d : Heap) (n : nat) : Node := default blank (d !! n).

Definition set_parent (p : option nat) (x : Node) : Node :=
  {| parentNode := p; childNodes := childNodes x; innerHTML := innerHTML x;
     shadowRoot := shadowRoot x; attributes := attributes x |}.

Definition set_children (l : list nat) (x : Node) : Node :=
  {| parentNode := parentNode x; childNodes := l; innerHTML := innerHTML x;
     shadowRoot := shadowRoot x; attributes := attributes x |}.

Definition set_innerHTML (s : string) (x : Node) : Node :=
  {| parentNode := parentNode x; childNodes := childNodes x; innerHTML := s;
     shadowRoot := shadowRoot x; attributes := attributes x |}.

Definition set_shadowRoot (s : option string) (x : Node) : Node :=
  {| parentNode := parentNode x; childNodes := childNodes x;
     innerHTML := innerHTML x; shadowRoot := s; attributes := attributes x |}.

Definition set_attribute (k v : string) (x : Node) : Node :=
  {| parentNode := parentNode x; childNodes := childNodes x;
     innerHTML := innerHTML x; shadowRoot := shadowRoot x;
     attributes := <[k := v]> (attributes x) |}.

Definition update (n : nat) (f : Node -> Node) (d : Heap) : Heap :=
  <[n := f (node d n)]> d.

(** [node.firstChild] *)
Definition firstChild (d : Heap) (n : nat) : option nat :=
  head (childNodes (node d n)).

(** Removes the first occurrence of [x]. *)
Fixpoint remove_first (x : nat) (l : list nat) : list nat :=
  match l with
  | [] => []
  | y :: t => if Nat.eqb x y then t else y :: remove_first x t
  end.

(** [c] is an inclusive ancestor of [e]: the walk up the parent links that
    [Node.prototype.contains] performs.  [fuel] bounds the length of the
    walk; [contains] gives it one more than the number of nodes of the
    heap. *)
Fixpoint ancestor_within (fuel : nat) (d : Heap) (c e : nat) : bool :=
  match fuel with
  | 0 => false
  | S k =>
      if Nat.eqb c e then true
      else match parentNode (node d e) with
           | Some p => ancestor_within k d c p
           | None => false
           end
  end.

(** [c] is [e] or an ancestor of [e], as a relation: the closure of the
    parent links. *)
Inductive Ancestor (d : Heap) (c : nat) : nat -> Prop :=
| anc_self : Ancestor d c c
| anc_parent e p :
    parentNode (node d e) = Some p -> Ancestor d c p -> Ancestor d c e.

(** The walk up from [e] ends at a root, within [fuel] links, without
    meeting [c]. *)
Fixpoint reaches_root (fuel : nat) (d : Heap) (c e : nat) : bool :=
  match fuel with
  | 0 => false
  | S k =>
      if Nat.eqb c e then false
      else match parentNode (node d e) with
           | Some p => reaches_root k d c p
           | None => true
           end
  end.

(** [c.contains(e)]; [e] may be [null]. *)
Definition contains (d : Heap) (c : nat) (e : option nat) : bool :=
  match e with
  | None => false
  | Some x => ancestor_within (S (size d)) d c x
  end.

(** [rawRemoveChild.call(c, x)] *)
Definition removeChild (c x : nat) (d : Heap) : thrown + Heap :=
  if decide (x ∈ childNodes (node d c)) then
    inr (update x (set_parent None)
           (update c (set_children (remove_first x (childNodes (node d c)))) d))
  else inl (DOMException "NotFoundError").

(** The detaching half of an insertion: [x] leaves its current parent. *)
Definition detach (x : nat) (d : Heap) : Heap :=
  match parentNode (node d x) with
  | Some p =>
      update x (set_parent None)
        (update p (set_children (remove_first x (childNodes (node d p)))) d)
  | None => d
  end.

(** [rawAppendChild.call(c, x)]: refused when [x] is [c] or one of its
    ancestors; otherwise [x] is moved to the end of the children of [c]. *)
Definition appendChild (c x : nat) (d : Heap) : thrown + Heap :=
  if contains d x (Some c) then inl (DOMException "HierarchyRequestError")
  else
    let d1 := detach x d in
    inr (update x (set_parent (Some c))
           (update c (set_children (childNodes (node d1 c) ++ [x])) d1)).

End Dom.

(** ** The page, external functions, and the data of the loader *)

Section Model.

(** Whatever state the code supplied by applications keeps besides the DOM. *)
Context {U : Type}.

(** The part of the state that code outside the loader can read and change. *)
Record Page : Type := mkPage {
  dom : Dom.Heap;
  nextNode : nat;            (* the identity given to the next node created *)
  console : list string;     (* console.warn, oldest first *)
  clock : N;                 (* what [+new Date()] reads, in milliseconds *)
  entropy : nat -> N;        (* the draws of Math.random(), scaled by 1000 *)
  drawn : nat;               (* how many draws were consumed *)
  user : U
}.

Definition set_dom (d : Dom.Heap) (p : Page) : Page :=
  {| dom := d; nextNode := nextNode p; console := console p; clock := clock p;
     entropy := entropy p; drawn := drawn p; user := user p |}.

Definition warn (msg : string) (p : Page) : Page :=
  {| dom := dom p; nextNode := nextNode p; console := console p ++ [msg];
     clock := clock p; entropy := entropy p; drawn := drawn p; user := user p |}.

(** [document.createElement] and the nodes a parser creates: a node with a
    fresh identity is added to the heap. *)
Definition alloc (x : Dom.Node) (p : Page) : nat * Page :=
  (nextNode p,
   {| dom := <[nextNode p := x]> (dom p); nextNode := S (nextNode p);
      console := console p; clock := clock p; entropy := entropy p;
      drawn := drawn p; user := user p |}).

(** [Math.floor(Math.random() * 1000)]: the next draw, which lies in
    [0, 1000). *)
Definition random1000 (p : Page) : N * Page :=
  ((entropy p (drawn p) mod 1000)%N,
   {| dom := dom p; nextNode := nextNode p; console := console p;
      clock := clock p; entropy := entropy p; drawn := S (drawn p);
      user := user p |}).

(** The behaviour of a function supplied from outside the loader, called with
    an argument of type [I]. *)
Definition Callback (O : Type) : Type := Page -> outcome O * Page.

Record ExtFn (I O : Type) : Type := mkExtFn {
  fn_id : nat;                 (* ghost: the identity of the function *)
  fn_body : I -> Callback O
}.
Arguments mkExtFn {I O} fn_id fn_body.
Arguments fn_id {I O} e.
Arguments fn_body {I O} e.

(** [string | HTMLElement] *)
Inductive ContainerRef : Type :=
| Selector (s : string)
| Handle (el : nat).

(** JavaScript truthiness of a [string | HTMLElement | undefined]. *)
Definition truthy (c : option ContainerRef) : bool :=
  match c with
  | None => false
  | Some (Selector s) => negb (String.eqb s "")
  | Some (Handle _) => true
  end.

(** [a || b] *)
Definition or_else (a b : option ContainerRef) : option ContainerRef :=
  if truthy a then a else b.

(** [a ?? b] *)
Definition nullish (a b : option ContainerRef) : option ContainerRef :=
  match a with Some _ => a | None => b end.

(** The execution global handed to hooks and scripts. *)
Inductive Global : Type :=
| Window
| SandboxProxy (sandbox : nat).

(** What [appWrapperGetter] hands to the application: the wrapper element or
    its shadow root. *)
Inductive WrapperRef : Type :=
| LightRoot (el : nat)
| ShadowRootOf (el : nat).

(** [HTMLContentRender]: called with [{ loading, appContent }]. *)
Definition HTMLContentRender : Type := ExtFn (bool * string) value.

(** [LoadableApp]: [container] and [render] are [None] when the key is not
    in the descriptor. *)
Record LoadableApp : Type := mkApp {
  name : string;
  entry : string;
  props : value;
  container : option ContainerRef;
  render : option HTMLContentRender
}.

Definition LifeCycleFn : Type := ExtFn (LoadableApp * Global) value.

(** [FrameworkLifeCycles]; a key that holds one function is the list of that
    function, a key that is absent is the empty list (what [toArray] and the
    defaults of the destructuring make of them). *)
Record FrameworkLifeCycles : Type := mkLifeCycles {
  beforeLoad : list LifeCycleFn;
  beforeMount : list LifeCycleFn;
  afterMount : list LifeCycleFn;
  beforeUnmount : list LifeCycleFn;
  afterUnmount : list LifeCycleFn
}.

(** [mergeWith({}, a, b, (v1, v2) => concat(v1 ?? [], v2 ?? []))] *)
Definition mergeLifeCycles (a b : FrameworkLifeCycles) : FrameworkLifeCycles :=
  {| beforeLoad := beforeLoad a ++ beforeLoad b;
     beforeMount := beforeMount a ++ beforeMount b;
     afterMount := afterMount a ++ afterMount b;
     beforeUnmount := beforeUnmount a ++ beforeUnmount b;
     afterUnmount := afterUnmount a ++ afterUnmount b |}.

Definition noLifeCycles : FrameworkLifeCycles :=
  {| beforeLoad := []; beforeMount := []; afterMount := [];
     beforeUnmount := []; afterUnmount := [] |}.

(** [FrameworkConfiguration['singular']] *)
Inductive Singular : Type :=
| SingularFlag (b : bool)
| SingularFn (validate : ExtFn LoadableApp bool).

(** [FrameworkConfiguration['sandbox']] *)
Inductive SandboxOpt : Type :=
| SandboxFlag (b : bool)
| SandboxObj (strictStyleIsolation experimentalStyleIsolation loose : bool).

Record FrameworkConfiguration : Type := mkConfiguration {
  singular : option Singular;
  sandbox : option SandboxOpt;
  excludeAssetFilter : value;
  importEntryOpts : value
}.

(** The props an application's [mount] and [unmount] receive. *)
Record LifeCycleProps : Type := mkProps {
  given : value;                              (* the props of the caller *)
  wrapper : option WrapperRef;                (* [container] *)
  setGlobalState : option (ExtFn value value);
  onGlobalStateChange : option (ExtFn value value)
}.

(** The exports of the entry script. *)
Record Exports : Type := mkExports {
  x_bootstrap : option (ExtFn value value);
  x_mount : option (ExtFn LifeCycleProps value);
  x_unmount : option (ExtFn LifeCycleProps value);
  x_update : option (ExtFn value value)
}.

(** The result of import-html-entry. *)
Record Imported : Type := mkImported {
  template : string;
  execScripts : ExtFn (Global * bool) (option Exports);
  assetPublicPath : string
}.

Record SandboxInstance : Type := mkSandbox {
  proxy : Global;
  sb_mount : ExtFn unit value;
  sb_unmount : ExtFn unit value
}.

Record StateActions : Type := mkStateActions {
  sa_onGlobalStateChange : ExtFn value value;
  sa_setGlobalState : ExtFn value value;
  sa_offGlobalStateChange : ExtFn string value
}.

(** Everything [loader.ts] and [apis.ts] import or read from the host: the
    helpers of [./utils], [./sandbox], [./addons] and [./globalState],
    import-html-entry, and the facilities of the browser the code calls.
    They are parameters of the model. *)
Record Externals : Type := mkExternals {
  NODE_ENV : string;
  (* document.head.attachShadow, document.head.createShadowRoot *)
  attachShadow : bool;
  createShadowRoot : bool;
  (* the first child the HTML parser makes of a markup, if it makes any *)
  parseFirstChild : string -> option Dom.Node;
  querySelector : string -> Page -> option nat;
  getElementById : string -> Page -> option nat;
  styleNodes : nat -> Page -> list nat;
  markEntries : string -> Page -> nat;
  globalVariable : Global -> string -> Page -> option Exports;
  importEntry : ExtFn (string * value) Imported;
  getDefaultTplWrapper : string -> string -> string -> string;
  getWrapperId : string -> string;
  isEnableScopedCSS : option SandboxOpt -> bool;
  QiankunCSSRewriteAttr : string;
  cssProcess : ExtFn (nat * nat * string) value;
  performanceMark : ExtFn string value;
  performanceMeasure : ExtFn (string * string) value;
  validateExportLifecycle : option Exports -> bool;
  (* called with the name, enableScopedCSS, useLooseSandbox and
     excludeAssetFilter; what the sandbox does with the wrapper getter it
     also receives is part of its own behaviour *)
  createSandbox : ExtFn (string * bool * bool * value) SandboxInstance;
  getAddOns : Global -> string -> FrameworkLifeCycles;
  getMicroAppStateActions : string -> StateActions;
  getXPathForElement : nat -> Page -> option string;
  (* how a template literal prints an element *)
  showElement : nat -> string
}.

(** The variables a call of [loadApp] leaves captured in the
    [parcelConfigGetter] it returns.  [appWrapperElement], which the closures
    assign, lives in the world at [l_cell]; every load has a cell of its own,
    so [l_cell] also tells the loads apart. *)
Record Loaded : Type := mkLoaded {
  l_app : LoadableApp;
  l_appInstanceId : string;
  l_markName : string;
  l_singular : Singular;
  l_appContent : string;
  l_strictStyleIsolation : bool;
  l_enableScopedCSS : bool;
  l_cell : nat;
  l_global : Global;
  l_mountSandbox : option (ExtFn unit value);
  l_unmountSandbox : option (ExtFn unit value);
  l_hooks : FrameworkLifeCycles;
  l_exports : Exports;
  l_actions : StateActions
}.

(** A [Deferred]; [creator] and [resolvedBy] are ghost fields that name the
    loads whose steps created it and called [resolve] on it. *)
Record Deferred : Type := mkDeferred {
  resolved : bool;
  creator : nat;
  resolvedBy : list nat
}.

Record World : Type := mkWorld {
  page : Page;
  (* let prevAppUnmountedDeferred: Deferred<void> *)
  prevAppUnmountedDeferred : option nat;
  deferreds : list Deferred;
  (* the [appWrapperElement] of each call of loadApp *)
  cells : list (option nat);
  (* export let frameworkConfiguration *)
  frameworkConfiguration : FrameworkConfiguration;
  (* const appConfigPormiseGetterMap *)
  appConfigPormiseGetterMap : gmap string (outcome Loaded);
  (* ghost: the identities of the external functions called, in order *)
  trace : list nat
}.

Definition set_page (p : Page) (w : World) : World :=
  {| page := p; prevAppUnmountedDeferred := prevAppUnmountedDeferred w;
     deferreds := deferreds w; cells := cells w;
     frameworkConfiguration := frameworkConfiguration w;
     appConfigPormiseGetterMap := appConfigPormiseGetterMap w;
     trace := trace w |}.

Definition set_prev (d : option nat) (w : World) : World :=
  {| page := page w; prevAppUnmountedDeferred := d;
     deferreds := deferreds w; cells := cells w;
     frameworkConfiguration := frameworkConfiguration w;
     appConfigPormiseGetterMap := appConfigPormiseGetterMap w;
     trace := trace w |}.

Definition set_deferreds (l : list Deferred) (w : World) : World :=
  {| page := page w; prevAppUnmountedDeferred := prevAppUnmountedDeferred w;
     deferreds := l; cells := cells w;
     frameworkConfiguration := frameworkConfiguration w;
     appConfigPormiseGetterMap := appConfigPormiseGetterMap w;
     trace := trace w |}.

Definition set_cells (l : list (option nat)) (w : World) : World :=
  {| page := page w; prevAppUnmountedDeferred := prevAppUnmountedDeferred w;
     deferreds := deferreds w; cells := l;
     frameworkConfiguration := frameworkConfiguration w;
     appConfigPormiseGetterMap := appConfigPormiseGetterMap w;
     trace := trace w |}.

Definition set_cache (m : gmap string (outcome Loaded)) (w : World) : World :=
  {| page := page w; prevAppUnmountedDeferred := prevAppUnmountedDeferred w;
     deferreds := deferreds w; cells := cells w;
     frameworkConfiguration := frameworkConfiguration w;
     appConfigPormiseGetterMap := m;
     trace := trace w |}.

Definition record (id : nat) (w : World) : World :=
  {| page := page w; prevAppUnmountedDeferred := prevAppUnmountedDeferred w;
     deferreds := deferreds w; cells := cells w;
     frameworkConfiguration := frameworkConfiguration w;
     appConfigPormiseGetterMap := appConfigPormiseGetterMap w;
     trace := trace w ++ [id] |}.

(** ** Promises over the world *)

Definition M (A : Type) : Type := World -> outcome A * World.

(** [Promise.resolve(a)], and [return a] in an async function *)
Definition resolve {A} (a : A) : M A := fun w => (Fulfilled a, w).

(** [throw e] in an async function or in a [then] callback *)
Definition throw {A} (e : thrown) : M A := fun w => (Rejected e, w).

(** [p.then(f)], and [const a = await p; f(a)] *)
Definition then_ {A B} (p : M A) (f : A -> M B) : M B :=
  fun w =>
    match p w with
    | (Fulfilled a, w') => f a w'
    | (Rejected e, w') => (Rejected e, w')
    | (Pending, w') => (Pending, w')
    end.

(** A call of an external function; awaited when it returns a promise.  Where
    the source does not await the result, the function is a synchronous one
    and a rejection stands for a [throw]. *)
Definition call {I O} (f : ExtFn I O) (i : I) : M O :=
  fun w =>
    let '(o, p) := fn_body f i (page w) in
    (o, set_page p (record (fn_id f) w)).

(** A synchronous change of the page. *)
Definition modify (f : Page -> Page) : M unit :=
  fun w => (Fulfilled tt, set_page (f (page w)) w).

Definition read {A} (f : World -> A) : M A := fun w => (Fulfilled (f w), w).

End Model.

Arguments Page : clear implicits.
Arguments Callback : clear implicits.
Arguments ExtFn : clear implicits.
Arguments LoadableApp : clear implicits.
Arguments LifeCycleFn : clear implicits.
Arguments HTMLContentRender : clear implicits.
Arguments FrameworkLifeCycles : clear implicits.
Arguments Singular : clear implicits.
Arguments FrameworkConfiguration : clear implicits.
Arguments LifeCycleProps : clear implicits.
Arguments Exports : clear implicits.
Arguments Imported : clear implicits.
Arguments SandboxInstance : clear implicits.
Arguments StateActions : clear implicits.
Arguments Externals : clear implicits.
Arguments Loaded : clear implicits.
Arguments World : clear implicits.
Arguments M : clear implicits.
Arguments mkExtFn {U I O} fn_id fn_body.
Arguments fn_id {U I O} e.
Arguments fn_body {U I O} e.

Declare Scope promise_scope.
Delimit Scope promise_scope with promise.
Notation "'let*' x ':=' p 'in' q" := (then_ p (fun x => q))
  (at level 10, x pattern, p at level 100, q at level 200)
  : promise_scope.
Notation "p ;; q" := (then_ p (fun _ => q))
  (at level 100, q at level 200, right associativity) : promise_scope.

(** ** [loader.ts] *)

Inductive Phase : Type := Loading | Mounting | Mounted | Unmounted.

Definition phase_eqb (a b : Phase) : bool :=
  match a, b with
  | Loading, Loading | Mounting, Mounting
  | Mounted, Mounted | Unmounted, Unmounted => true
  | _, _ => false
  end.

Definition showPhase (ph : Phase) : string :=
  match ph with
  | Loading => "loading"
  | Mounting => "mounting"
  | Mounted => "mounted"
  | Unmounted => "unmounted"
  end.

(** The first argument of [render]. *)
Record RenderProps : Type := mkRenderProps {
  element : option nat;
  loading : bool;
  remountContainer : option ContainerRef
}.

Section Loader.

Context {U : Type} (ext : Externals U).
Local Open Scope promise_scope.

Definition development : bool := String.eqb (NODE_ENV ext) "development".

(** A synchronous operation of the page that returns a result. *)
Definition pageOp {A} (f : Page U -> A * Page U) : M U A :=
  fun w => let '(a, p) := f (page w) in (Fulfilled a, set_page p w).

(** A DOM operation that may throw. *)
Definition domOp (f : Dom.Heap -> thrown + Dom.Heap) : M U unit :=
  fun w =>
    match f (dom (page w)) with
    | inl e => (Rejected e, w)
    | inr d => (Fulfilled tt, set_page (set_dom d (page w)) w)
    end.

(** A call of something that may not be a function. *)
Definition callOpt {I O} (f : option (ExtFn U I O)) (what : string) (i : I)
  : M U O :=
  match f with
  | Some g => call g i
  | None => throw (TypeError (what ++ " is not a function"))
  end.

(** [if (msg)] *)
Definition nonEmpty (msg : option string) : option string :=
  match msg with
  | Some m => if String.eqb m "" then None else Some m
  | None => None
  end.

Definition assertElementExist {A} (element : option A) (msg : option string)
  : M U unit :=
  match element with
  | Some _ => resolve tt
  | None =>
      match nonEmpty msg with
      | Some m => throw (Error m)
      | None => throw (Error "[qiankun] element not existed!")
      end
  end.

Definition execHooksChain (hooks : list (LifeCycleFn U)) (app : LoadableApp U)
    (global : Global) : M U value :=
  if negb (Nat.eqb (length hooks) 0) then
    fold_left (fun chain hook => then_ chain (fun _ => call hook (app, global)))
      hooks (resolve Undefined)
  else resolve Undefined.

Definition validateSingularMode (validate : option (Singular U))
    (app : LoadableApp U) : M U bool :=
  match validate with
  | Some (SingularFn f) => call f app
  | Some (SingularFlag b) => resolve b
  | None => resolve false
  end.

Definition supportShadowDOM : bool := attachShadow ext || createShadowRoot ext.

(** [el.attachShadow({ mode: 'open' })] and the deprecated
    [el.createShadowRoot()]: the element gets an empty shadow root. *)
Definition openShadow (el : nat) : M U unit :=
  modify (fun p => set_dom (Dom.update el (Dom.set_shadowRoot (Some "")) (dom p)) p).

(** [document.createElement('div')], [innerHTML = appContent] and
    [firstChild]: the temporary div and, when the markup has a first child,
    that child, which stays attached to the div. *)
Definition parseInto (appContent : string) (p : Page U) : option nat * Page U :=
  let '(containerElement, p1) :=
    alloc (Dom.set_innerHTML appContent Dom.blank) p in
  match parseFirstChild ext appContent with
  | None => (None, p1)
  | Some x =>
      let '(appElement, p2) :=
        alloc (Dom.set_children [] (Dom.set_parent (Some containerElement) x)) p1 in
      (Some appElement,
       set_dom (Dom.update containerElement (Dom.set_children [appElement]) (dom p2)) p2)
  end.

Definition createElement (appContent : string) (strictStyleIsolation : bool)
  : M U (option nat) :=
  let* appElement := pageOp (parseInto appContent) in
  (if strictStyleIsolation then
     if negb supportShadowDOM then
       modify (warn "[qiankun]: As current browser not support shadow dom, your strictStyleIsolation configuration will be ignored!")
     else
       match appElement with
       | None => throw (TypeError "Cannot read properties of null (reading 'innerHTML')")
       | Some el =>
           let* innerHTML := read (fun w => Dom.innerHTML (Dom.node (dom (page w)) el)) in
           modify (fun p => set_dom (Dom.update el (Dom.set_innerHTML "") (dom p)) p) ;;
           (if attachShadow ext then openShadow el else openShadow el) ;;
           modify (fun p => set_dom (Dom.update el (Dom.set_shadowRoot (Some innerHTML)) (dom p)) p)
       end
   else resolve tt) ;;
  resolve appElement.

Definition wrapperMissing (appName appInstanceId : string) : string :=
  "[qiankun] Wrapper element for " ++ appName ++ " with instance "
    ++ appInstanceId ++ " is not existed!".

(** The function [getAppWrapperGetter] returns, applied. *)
Definition getAppWrapperGetter (appName appInstanceId : string)
    (useLegacyRender strictStyleIsolation enableScopedCSS : bool)
    (elementGetter : M U (option nat)) : M U (option WrapperRef) :=
  if useLegacyRender then
    if strictStyleIsolation then
      throw (Error "[qiankun]: strictStyleIsolation can not be used with legacy render!")
    else if enableScopedCSS then
      throw (Error "[qiankun]: experimentalStyleIsolation can not be used with legacy render!")
    else
      let* appWrapper :=
        read (fun w => getElementById ext (getWrapperId ext appInstanceId) (page w)) in
      assertElementExist appWrapper (Some (wrapperMissing appName appInstanceId)) ;;
      resolve (LightRoot <$> appWrapper)
  else
    let* element := elementGetter in
    assertElementExist element (Some (wrapperMissing appName appInstanceId)) ;;
    match element with
    | None => resolve None
    | Some el =>
        (if enableScopedCSS then
           let* attr :=
             read (fun w => Dom.attributes (Dom.node (dom (page w)) el)
                              !! QiankunCSSRewriteAttr ext) in
           match nonEmpty attr with
           | Some _ => resolve tt
           | None =>
               modify (fun p => set_dom (Dom.update el
                  (Dom.set_attribute (QiankunCSSRewriteAttr ext) appName) (dom p)) p)
           end
         else resolve tt) ;;
        if strictStyleIsolation then
          let* shadow := read (fun w => Dom.shadowRoot (Dom.node (dom (page w)) el)) in
          resolve (match shadow with
                   | Some _ => Some (ShadowRootOf el)
                   | None => None
                   end)
        else resolve (Some (LightRoot el))
    end.

(** Modelled from the spec: [getContainer] of [./utils], which is not in
    src/.  "Container addressing: accepts a direct element handle or a lookup
    key resolved at render time": a handle is the element itself, a key is
    looked up in the document as it is now, and [undefined] stays
    [undefined]. *)
Definition getContainer (c : option ContainerRef) (p : Page U) : option nat :=
  match c with
  | Some (Selector s) => querySelector ext s p
  | Some (Handle el) => Some el
  | None => None
  end.

(** How a template literal prints [container]. *)
Definition showContainer (c : option ContainerRef) : string :=
  match c with
  | Some (Selector s) => s
  | Some (Handle el) => showElement ext el
  | None => "undefined"
  end.

Definition containerMissing (container : option ContainerRef)
    (appName : string) (phase : Phase) : string :=
  match phase with
  | Loading | Mounting =>
      "[qiankun] Target container with " ++ showContainer container
        ++ " not existed while " ++ appName ++ " " ++ showPhase phase ++ "!"
  | Mounted =>
      "[qiankun] Target container with " ++ showContainer container
        ++ " not existed after " ++ appName ++ " " ++ showPhase phase ++ "!"
  | Unmounted => (* the default of the switch; [render] never asks for it *)
      "[qiankun] Target container with " ++ showContainer container
        ++ " not existed while " ++ appName ++ " rendering!"
  end.

(** [while (c.firstChild) rawRemoveChild.call(c, c.firstChild)]; a loop that
    is still running when [fuel] is spent never settles. *)
Fixpoint clearContainer (fuel : nat) (c : nat) : M U unit :=
  fun w =>
    match Dom.firstChild (dom (page w)) c with
    | None => (Fulfilled tt, w)
    | Some x =>
        match fuel with
        | 0 => (Pending, w)
        | S k =>
            match Dom.removeChild c x (dom (page w)) with
            | inl e => (Rejected e, w)
            | inr d => clearContainer k c (set_page (set_dom d (page w)) w)
            end
        end
    end.

(** The function [getRender] returns, applied. *)
Definition getRender (appName appContent : string)
    (container : option ContainerRef) (legacyRender : option (HTMLContentRender U))
    (props : RenderProps) (phase : Phase) : M U value :=
  match legacyRender with
  | Some f =>
      (if development then
         modify (warn "[qiankun] Custom rendering function is deprecated, you can use the container element setting instead!")
       else resolve tt) ;;
      call f (loading props,
              match element props with Some _ => appContent | None => "" end)
  | None =>
      let* containerElement :=
        read (fun w => getContainer (or_else (remountContainer props) container) (page w)) in
      (if negb (phase_eqb phase Unmounted) then
         assertElementExist containerElement
           (Some (containerMissing container appName phase))
       else resolve tt) ;;
      match containerElement with
      | Some c =>
          let* inside := read (fun w => Dom.contains (dom (page w)) c (element props)) in
          if negb inside then
            (let* n := read (fun w => length (Dom.childNodes (Dom.node (dom (page w)) c))) in
             clearContainer n c) ;;
            match element props with
            | Some el => domOp (Dom.appendChild c el)
            | None => resolve tt
            end
          else resolve tt
      | None => resolve tt
      end ;;
      resolve Undefined
  end.

Definition getLifecyclesFromExports (scriptExports : option (Exports U))
    (appName : string) (global : Global) : M U (option (Exports U)) :=
  if validateExportLifecycle ext scriptExports then resolve scriptExports
  else
    (if development then
       modify (warn ("[qiankun] lifecycle not found from " ++ appName
                       ++ " entry exports, fallback to get from window['"
                       ++ appName ++ "']"))
     else resolve tt) ;;
    let* globalVariableExports :=
      read (fun w => globalVariable ext global appName (page w)) in
    if validateExportLifecycle ext globalVariableExports
    then resolve globalVariableExports
    else throw (Error ("[qiankun] You need to export lifecycle functions in "
                         ++ appName ++ " entry")).

(** [`${appName}_${+new Date()}_${Math.floor(Math.random() * 1000)}`] *)
Definition appInstanceId (appName : string) (now suffix : N) : string :=
  appName ++ "_" ++ pretty now ++ "_" ++ pretty suffix.

(** [new Deferred()], assigned to [prevAppUnmountedDeferred]. *)
Definition issueDeferred (owner : nat) : M U unit :=
  fun w =>
    (Fulfilled tt,
     set_prev (Some (length (deferreds w)))
       (set_deferreds (deferreds w ++ [mkDeferred false owner []]) w)).

(** [d.promise], awaited. *)
Definition awaitDeferred (d : nat) : M U value :=
  fun w =>
    match deferreds w !! d with
    | Some x => if resolved x then (Fulfilled Undefined, w) else (Pending, w)
    | None => (Pending, w)
    end.

(** [d.resolve()], called by a step of the load [caller]. *)
Definition resolveDeferred (caller : nat) (d : nat) : M U unit :=
  fun w =>
    (Fulfilled tt,
     set_deferreds
       (alter (fun x => mkDeferred true (creator x) (resolvedBy x ++ [caller]))
          d (deferreds w)) w).

(** The variable [appWrapperElement] of one load. *)
Definition readWrapper (cell : nat) : M U (option nat) :=
  read (fun w => mjoin (cells w !! cell)).

Definition writeWrapper (cell : nat) (v : option nat) : M U unit :=
  fun w => (Fulfilled tt, set_cells (<[cell := v]> (cells w)) w).

Definition newWrapperCell (v : option nat) : M U nat :=
  fun w => (Fulfilled (length (cells w)), set_cells (cells w ++ [v]) w).

Fixpoint forEach {A} (l : list A) (f : A -> M U value) : M U unit :=
  match l with
  | [] => resolve tt
  | x :: t => f x ;; forEach t f
  end.

Definition isSome {A} (o : option A) : bool :=
  match o with Some _ => true | None => false end.

Section Closures.

(** What the closures of one load see. *)
Variable ld : Loaded U.

Definition render_of : RenderProps -> Phase -> M U value :=
  getRender (name (l_app ld)) (l_appContent ld)
    (container (l_app ld)) (render (l_app ld)).

Definition appWrapperGetter : M U (option WrapperRef) :=
  getAppWrapperGetter (name (l_app ld)) (l_appInstanceId ld)
    (isSome (render (l_app ld))) (l_strictStyleIsolation ld)
    (l_enableScopedCSS ld) (readWrapper (l_cell ld)).

(** [mountSandbox] and [unmountSandbox]: [() => Promise.resolve()] unless a
    sandbox was created. *)
Definition sandboxStep (f : option (ExtFn U unit value)) : M U value :=
  match f with
  | Some g => call g tt
  | None => resolve Undefined
  end.

(** The steps of the [mount] array, in the order of the array. *)

Definition markStep (_ : value) : M U value :=
  if development then
    let* marks := read (fun w => markEntries ext (l_markName ld) (page w)) in
    (* mark length is zero means the app is remounting *)
    if Nat.eqb marks 0
    then call (performanceMark ext) (l_markName ld) ;; resolve Undefined
    else resolve Undefined
  else resolve Undefined.

Definition singularWaitStep (_ : value) : M U value :=
  let* sing := validateSingularMode (Some (l_singular ld)) (l_app ld) in
  let* prev := read prevAppUnmountedDeferred in
  match sing, prev with
  | true, Some d => awaitDeferred d
  | _, _ => resolve Undefined
  end.

Definition containerStep (remount : option ContainerRef) (_ : value)
  : M U value :=
  let* current := readWrapper (l_cell ld) in
  let* el :=
    match current with
    | Some _ => resolve current
    | None => createElement (l_appContent ld) (l_strictStyleIsolation ld)
    end in
  writeWrapper (l_cell ld) el ;;
  render_of (mkRenderProps el true remount) Mounting ;;
  resolve Undefined.

Definition beforeMountStep (_ : value) : M U value :=
  execHooksChain (beforeMount (l_hooks ld)) (l_app ld) (l_global ld).

Definition appMountStep (props : value) : M U value :=
  let* c := appWrapperGetter in
  callOpt (x_mount (l_exports ld)) "mount"
    (mkProps props c
       (Some (sa_setGlobalState (l_actions ld)))
       (Some (sa_onGlobalStateChange (l_actions ld)))).

Definition mountedStep (remount : option ContainerRef) (_ : value)
  : M U value :=
  let* el := readWrapper (l_cell ld) in
  render_of (mkRenderProps el false remount) Mounted.

Definition afterMountStep (_ : value) : M U value :=
  execHooksChain (afterMount (l_hooks ld)) (l_app ld) (l_global ld).

Definition singularIssueStep (_ : value) : M U value :=
  let* sing := validateSingularMode (Some (l_singular ld)) (l_app ld) in
  (if sing then issueDeferred (l_cell ld) else resolve tt) ;;
  resolve Undefined.

Definition measureStep (_ : value) : M U value :=
  if development then
    call (performanceMeasure ext)
      ("[qiankun] App " ++ l_appInstanceId ld ++ " Loading Consuming",
       l_markName ld) ;;
    resolve Undefined
  else resolve Undefined.

(** The [mount] array of the parcel config. *)
Definition mountSteps (remount : option ContainerRef)
  : list (value -> M U value) :=
  [ markStep;
    singularWaitStep;
    containerStep remount;
    (fun _ => sandboxStep (l_mountSandbox ld));
    beforeMountStep;
    appMountStep;
    mountedStep remount;
    afterMountStep;
    singularIssueStep;
    measureStep ].

(** The steps of the [unmount] array. *)

Definition beforeUnmountStep (_ : value) : M U value :=
  execHooksChain (beforeUnmount (l_hooks ld)) (l_app ld) (l_global ld).

Definition appUnmountStep (props : value) : M U value :=
  let* c := appWrapperGetter in
  callOpt (x_unmount (l_exports ld)) "unmount" (mkProps props c None None).

Definition afterUnmountStep (_ : value) : M U value :=
  execHooksChain (afterUnmount (l_hooks ld)) (l_app ld) (l_global ld).

Definition unmountedStep (remount : option ContainerRef) (_ : value)
  : M U value :=
  render_of (mkRenderProps None false remount) Unmounted ;;
  call (sa_offGlobalStateChange (l_actions ld)) (l_appInstanceId ld) ;;
  (* for gc *)
  writeWrapper (l_cell ld) None ;;
  resolve Undefined.

Definition singularResolveStep (_ : value) : M U value :=
  let* sing := validateSingularMode (Some (l_singular ld)) (l_app ld) in
  let* prev := read prevAppUnmountedDeferred in
  match sing, prev with
  | true, Some d => resolveDeferred (l_cell ld) d ;; resolve Undefined
  | _, _ => resolve Undefined
  end.

(** The [unmount] array of the parcel config. *)
Definition unmountSteps (remount : option ContainerRef)
  : list (value -> M U value) :=
  [ beforeUnmountStep;
    appUnmountStep;
    (fun _ => sandboxStep (l_unmountSandbox ld));
    afterUnmountStep;
    unmountedStep remount;
    singularResolveStep ].

End Closures.

(** The [bootstrap] of a parcel config: the export of the entry script, or
    the [() => Promise.resolve()] that [loadMicroApp] puts in its place. *)
Inductive Bootstrap : Type :=
| ExportedBootstrap (f : option (ExtFn U value value))
| ResolvedBootstrap.

Record ParcelConfigObject : Type := mkParcelConfig {
  pc_name : string;
  pc_bootstrap : Bootstrap;
  pc_mount : list (value -> M U value);
  pc_unmount : list (value -> M U value);
  pc_update : option (ExtFn U value value)
}.

Definition parcelConfigGetter (ld : Loaded U) (remount : option ContainerRef)
  : ParcelConfigObject :=
  {| pc_name := l_appInstanceId ld;
     pc_bootstrap := ExportedBootstrap (x_bootstrap (l_exports ld));
     pc_mount := mountSteps ld remount;
     pc_unmount := unmountSteps ld remount;
     pc_update := x_update (l_exports ld) |}.

(** The gate of [loadApp]:
    [if (await validateSingularMode(singular, app))
       await (prevAppUnmountedDeferred && prevAppUnmountedDeferred.promise)] *)
Definition singularGate (singular : Singular U) (app : LoadableApp U)
  : M U value :=
  let* sing := validateSingularMode (Some singular) app in
  if sing then
    let* prev := read prevAppUnmountedDeferred in
    match prev with
    | Some d => awaitDeferred d
    | None => resolve Undefined
    end
  else resolve Undefined.

(** [if (sandbox)] *)
Definition sandboxEnabled (s : SandboxOpt) : bool :=
  match s with SandboxFlag b => b | SandboxObj _ _ _ => true end.

(** [loadApp] from the line after the one that computes [appInstanceId],
    here [id]. *)
Definition loadAppAs (id : string) (app : LoadableApp U)
    (configuration : FrameworkConfiguration U)
    (lifeCycles : option (FrameworkLifeCycles U)) : M U (Loaded U) :=
  let appName := name app in
  let markName := "[qiankun] App " ++ id ++ " Loading" in
  (if development then call (performanceMark ext) markName ;; resolve tt
   else resolve tt) ;;
  let singular := default (SingularFlag false) (singular configuration) in
  let sandbox := default (SandboxFlag true) (sandbox configuration) in
  let* imported :=
    call (importEntry ext) (entry app, importEntryOpts configuration) in
  singularGate singular app ;;
  let appContent := getDefaultTplWrapper ext id appName (template imported) in
  let strictStyleIsolation :=
    match sandbox with SandboxObj strict _ _ => strict | SandboxFlag _ => false end in
  let* appWrapperElement := createElement appContent strictStyleIsolation in
  let* cell := newWrapperCell appWrapperElement in
  let enableScopedCSS := isEnableScopedCSS ext (Some sandbox) in
  match appWrapperElement with
  | Some el =>
      if enableScopedCSS then
        let* styles := read (fun w => styleNodes ext el (page w)) in
        forEach styles (fun st => call (cssProcess ext) (el, st, appName))
      else resolve tt
  | None => resolve tt
  end ;;
  getRender appName appContent (container app) (render app)
    (mkRenderProps appWrapperElement true None) Loading ;;
  let useLooseSandbox :=
    match sandbox with SandboxObj _ _ loose => loose | SandboxFlag _ => false end in
  let* sb :=
    if sandboxEnabled sandbox then
      let* inst :=
        call (createSandbox ext)
          (appName, enableScopedCSS, useLooseSandbox, excludeAssetFilter configuration) in
      resolve (proxy inst, Some (sb_mount inst), Some (sb_unmount inst))
    else resolve (Window, None, None) in
  let '(global, mountSandbox, unmountSandbox) := sb in
  let hooks :=
    mergeLifeCycles (getAddOns ext global (assetPublicPath imported))
      (default noLifeCycles lifeCycles) in
  execHooksChain (beforeLoad hooks) app global ;;
  let* scriptExports := call (execScripts imported) (global, negb useLooseSandbox) in
  let* found := getLifecyclesFromExports scriptExports appName global in
  match found with
  | None => throw (TypeError "Cannot destructure property 'bootstrap' of undefined")
  | Some exports =>
      resolve
        {| l_app := app; l_appInstanceId := id; l_markName := markName;
           l_singular := singular; l_appContent := appContent;
           l_strictStyleIsolation := strictStyleIsolation;
           l_enableScopedCSS := enableScopedCSS; l_cell := cell;
           l_global := global; l_mountSandbox := mountSandbox;
           l_unmountSandbox := unmountSandbox; l_hooks := hooks;
           l_exports := exports;
           l_actions := getMicroAppStateActions ext id |}
  end.

Definition loadApp (app : LoadableApp U) (configuration : FrameworkConfiguration U)
    (lifeCycles : option (FrameworkLifeCycles U)) : M U (Loaded U) :=
  let* now := read (fun w => clock (page w)) in
  let* suffix := pageOp random1000 in
  loadAppAs (appInstanceId (name app) now suffix) app configuration lifeCycles.

(** Modelled from the spec: how the Switching Engine (single-spa, which is
    not part of the repository) runs the [mount] or [unmount] array of a
    parcel config.  "ParcelConfig mount/unmount steps execute strictly in
    their declared order and a rejection aborts remaining steps without
    rollback": each step is called with the props once the step before it
    has fulfilled. *)
Fixpoint runSteps (steps : list (value -> M U value)) (props : value)
  : M U value :=
  match steps with
  | [] => resolve Undefined
  | s :: rest => s props ;; runSteps rest props
  end.

(** ** [apis.ts]: [loadMicroApp] *)

Definition getContainerXpath (container : ContainerRef) (p : Page U)
  : option string :=
  match getContainer (Some container) p with
  | Some containerElement => getXPathForElement ext containerElement p
  | None => None
  end.

(** The key under which [memorizedLoadingFn] looks a load up and stores it:
    [`${name}-${xpath}`], when [container] and [xpath] are both truthy. *)
Definition cacheKey (app : LoadableApp U) (p : Page U) : option string :=
  match container app with
  | Some c =>
      if truthy (Some c) then
        match nonEmpty (getContainerXpath c p) with
        | Some xpath => Some (name app ++ "-" ++ xpath)
        | None => None
        end
      else None
  | None => None
  end.

(** [{ ...parcelConfig, bootstrap: b }] *)
Definition withBootstrap (b : Bootstrap) (parcelConfig : ParcelConfigObject)
  : ParcelConfigObject :=
  {| pc_name := pc_name parcelConfig;
     pc_bootstrap := b;
     pc_mount := pc_mount parcelConfig;
     pc_unmount := pc_unmount parcelConfig;
     pc_update := pc_update parcelConfig |}.

(** [await promise] for a promise held in the map. *)
Definition awaitStored {A} (o : outcome A) : M U A := fun w => (o, w).

(** The function [loadMicroApp] hands to [mountRootParcel].  On the path of
    a fresh load, [loadApp] is called, the promise it returns is stored under
    the key at once, and only then is the promise awaited.  The source
    computes the XPath a second time between the call and the [set]; nothing
    of [loadApp] has run by then but its first synchronous lines, and the key
    is taken to be the one of the page in which the function was called. *)
Definition memorizedLoadingFn (app : LoadableApp U)
    (configuration : option (FrameworkConfiguration U))
    (lifeCycles : option (FrameworkLifeCycles U)) : M U ParcelConfigObject :=
  let container := container app in
  let* key := read (fun w => cacheKey app (page w)) in
  let* parcelConfigGetterPromise :=
    read (fun w => k ← key; appConfigPormiseGetterMap w !! k) in
  match parcelConfigGetterPromise with
  | Some promise =>
      let* getter := awaitStored promise in
      let parcelConfig := parcelConfigGetter getter container in
      (* empty bootstrap hook which should not run twice *)
      resolve (withBootstrap ResolvedBootstrap parcelConfig)
  | None =>
      let* fallback := read frameworkConfiguration in
      fun w =>
        let '(parcelConfigObjectGetterPromise, w1) :=
          loadApp app (default fallback configuration) lifeCycles w in
        let w2 :=
          match key with
          | Some k =>
              set_cache (<[k := parcelConfigObjectGetterPromise]>
                           (appConfigPormiseGetterMap w1)) w1
          | None => w1
          end in
        (let* getter := awaitStored parcelConfigObjectGetterPromise in
         resolve (parcelConfigGetter getter container)) w2
  end.

End Loader.

Arguments ParcelConfigObject : clear implicits.
Arguments Bootstrap : clear implicits.

(** ** Schedules of the singular-mode steps

    The steps of different loads interleave at the granularity of the
    elements of the [mount] and [unmount] arrays.  A schedule lists, in the
    order in which they run, the steps that touch
    [prevAppUnmountedDeferred]. *)

Section Schedules.

Context {U : Type}.

Inductive TokenStep : Type :=
| Wait (ld : Loaded U)      (* the second step of its mount array *)
| Issue (ld : Loaded U)     (* the ninth step of its mount array *)
| Release (ld : Loaded U).  (* the last step of its unmount array *)

Definition tokenStep (s : TokenStep) : M U value :=
  match s with
  | Wait ld => singularWaitStep ld Undefined
  | Issue ld => singularIssueStep ld Undefined
  | Release ld => singularResolveStep ld Undefined
  end.

(** The world a schedule leaves. *)
Definition after (steps : list TokenStep) (w : World U) : World U :=
  fold_left (fun w s => snd (tokenStep s w)) steps w.

(** The schedule as a chain of promises: it stops at a step that rejects or
    never settles. *)
Fixpoint runSchedule (steps : list TokenStep) : M U value :=
  match steps with
  | [] => resolve Undefined
  | s :: rest => then_ (tokenStep s) (fun _ => runSchedule rest)
  end.

(** Loads that take turns: each is mounted and unmounted before the next
    one is mounted. *)
Fixpoint turns (lds : list (Loaded U)) : list TokenStep :=
  match lds with
  | [] => []
  | ld :: rest => Wait ld :: Issue ld :: Release ld :: turns rest
  end.

(** The deferreds nobody has resolved. *)
Definition unresolved (w : World U) : list Deferred :=
  filter (fun x => resolved x = false) (deferreds w).

(** Every [resolve()] of a deferred came from the load that created it. *)
Definition resolvedByCreator (x : Deferred) : Prop :=
  forall caller, In caller (resolvedBy x) -> caller = creator x.

(** No deferred is waiting, each was resolved by its creator alone, and
    [prevAppUnmountedDeferred], when assigned, is one of them. *)
Definition idle (w : World U) : Prop :=
  Forall (fun x => resolved x = true /\ resolvedByCreator x) (deferreds w)
  /\ forall d, prevAppUnmountedDeferred w = Some d -> d < length (deferreds w).

(** Modelled for comparison with the code, from the words of the claims:
    the container a render call targets if it is resolved from
    [remountContainer ?? container]. *)
Definition targetPerNullish (ext : Externals U) (container : option ContainerRef)
    (props : RenderProps) (p : Page U) : option nat :=
  getContainer ext (nullish (remountContainer props) container) p.

End Schedules.

Arguments TokenStep : clear implicits.

(** ** Notions used to state the properties *)

(** No underscore in the string. *)
Fixpoint plain (s : string) : bool :=
  match s with
  | EmptyString => true
  | String a rest => negb (Ascii.eqb a "_") && plain rest
  end.

(** The warning of [createElement]. *)
Definition shadowWarning : string :=
  "[qiankun]: As current browser not support shadow dom, your strictStyleIsolation configuration will be ignored!".

(** The heap [d'] has no parent link that [d] lacks. *)
Definition fewer_links (d' d : Dom.Heap) : Prop :=
  forall y p, Dom.parentNode (Dom.node d' y) = Some p ->
              Dom.parentNode (Dom.node d y) = Some p.

Section Notions.

Context {U : Type}.

(** The accumulator function of the [reduce] in [execHooksChain]. *)
Definition chainStep (app : LoadableApp U) (g : Global) (chain : M U value)
    (hook : LifeCycleFn U) : M U value :=
  then_ chain (fun _ => call hook (app, g)).

(** What strict isolation does to the page, for the wrapper [el]. *)
Definition isolated (el : nat) (p : Page U) : Page U :=
  set_dom
    (Dom.update el
       (Dom.set_shadowRoot (Some (Dom.innerHTML (Dom.node (dom p) el))))
       (Dom.update el (Dom.set_shadowRoot (Some ""))
          (Dom.update el (Dom.set_innerHTML "") (dom p)))) p.

(** The suffix [loadApp] draws when it starts in [w]. *)
Definition suffixAt (w : World U) : N :=
  (entropy (page w) (drawn (page w)) mod 1000)%N.

(** A promise that fulfils only with loads of the identity [id]. *)
Definition yieldsId (id : string) (m : M U (Loaded U)) : Prop :=
  forall w ld w', m w = (Fulfilled ld, w') -> l_appInstanceId ld = id.

(** What [memorizedLoadingFn] returns for the promise of a load it has just
    started. *)
Definition configOf (ext : Externals U) (container : option ContainerRef)
    (o : outcome (Loaded U)) : outcome (ParcelConfigObject U) :=
  match o with
  | Fulfilled getter => Fulfilled (parcelConfigGetter ext getter container)
  | Rejected e => Rejected e
  | Pending => Pending
  end.

(** What it returns for a promise it found in the map. *)
Definition cachedConfigOf (ext : Externals U) (container : option ContainerRef)
    (o : outcome (Loaded U)) : outcome (ParcelConfigObject U) :=
  match o with
  | Fulfilled getter =>
      Fulfilled (withBootstrap ResolvedBootstrap
                   (parcelConfigGetter ext getter container))
  | Rejected e => Rejected e
  | Pending => Pending
  end.

(** At most one deferred is unresolved, and each was resolved by no load
    other than its creator. *)
Definition orderly (w : World U) : Prop :=
  (length (unresolved w) <= 1)%nat /\ Forall resolvedByCreator (deferreds w).

(** The singular policy of the load answers [b] at every evaluation: a
    flag, or a predicate that gives that answer for the application whatever
    the page. *)
Definition steady (ld : Loaded U) (b : bool) : Prop :=
  forall w,
    fst (validateSingularMode (Some (l_singular ld)) (l_app ld) w) = Fulfilled b.

Definition steadyLoad (ld : Loaded U) : Prop := exists b, steady ld b.

(** The load a step belongs to. *)
Definition loadOf (s : TokenStep U) : Loaded U :=
  match s with Wait ld | Issue ld | Release ld => ld end.

(** The deferred installed is the last one made, the load [c] made it and
    nobody has resolved it; every other deferred was resolved, by its creator
    alone. *)
Definition heldBy (c : nat) (w : World U) : Prop :=
  exists pre,
    deferreds w = (pre ++ [mkDeferred false c []])%list
    /\ prevAppUnmountedDeferred w = Some (length pre)
    /\ Forall (fun x => resolved x = true /\ resolvedByCreator x) pre.

(** The state of the deferreds when the load [h] is mounted, or none is. *)
Definition tokenState (h : option nat) (w : World U) : Prop :=
  match h with
  | Some c => heldBy c w
  | None => idle w
  end.

(** Schedules in which the mounts and unmounts of the loads in singular mode
    do not overlap.  In [sequenced h steps], [h] is the load that is mounted
    when the steps begin, if one is.  A load in singular mode issues only
    while none is mounted, and resolves only while it is the one mounted.
    Wait steps, and the steps of a load that is not in singular mode, may
    come anywhere. *)
Inductive sequenced : option nat -> list (TokenStep U) -> Prop :=
| sequenced_nil h : sequenced h []
| sequenced_wait h ld rest :
    sequenced h rest -> sequenced h (Wait ld :: rest)
| sequenced_off h s rest :
    steady (loadOf s) false -> sequenced h rest -> sequenced h (s :: rest)
| sequenced_issue ld rest :
    steady ld true ->
    sequenced (Some (l_cell ld)) rest -> sequenced None (Issue ld :: rest)
| sequenced_release ld rest :
    steady ld true ->
    sequenced None rest -> sequenced (Some (l_cell ld)) (Release ld :: rest).

End Notions.

(** ** A sample page and sample collaborators, for the worked examples *)

Module Sample.

(** The state of the applications: a journal. *)
Definition U : Type := list nat.

Definition set_user (u : U) (p : Page U) : Page U :=
  {| dom := dom p; nextNode := nextNode p; console := console p;
     clock := clock p; entropy := entropy p; drawn := drawn p; user := u |}.

(** A function that fulfils and leaves the page alone. *)
Definition quiet {I : Type} (id : nat) : ExtFn U I value :=
  mkExtFn id (fun _ p => (Fulfilled Undefined, p)).

(** A function that writes its identity in the journal. *)
Definition noting {I : Type} (id : nat) : ExtFn U I value :=
  mkExtFn id (fun _ p => (Fulfilled Undefined, set_user (user p ++ [id])%list p)).

(** A function that rejects. *)
Definition failing {I : Type} (id : nat) (why : string) : ExtFn U I value :=
  mkExtFn id (fun _ p => (Rejected (Reason why), p)).

(** An impure singular predicate: it answers [true] on its first call and
    [false] on its second, and so on. *)
Definition flipflop : ExtFn U (LoadableApp U) bool :=
  mkExtFn 40
    (fun _ p => (Fulfilled (Nat.even (length (user p))),
                 set_user (user p ++ [40])%list p)).

(** The document: a body (0) with two regions, [#root] (1) and [#side] (2),
    and a detached element (3). *)
Definition page0 : Page U :=
  {| dom := <[3 := Dom.blank]>
              (<[2 := Dom.set_parent (Some 0) Dom.blank]>
                 (<[1 := Dom.set_parent (Some 0) Dom.blank]>
                    (<[0 := Dom.set_children [1; 2] Dom.blank]> ∅)));
     nextNode := 4; console := []; clock := 1600000000000%N;
     entropy := fun _ => 7%N; drawn := 0; user := [] |}.

Definition exports0 : Exports U :=
  {| x_bootstrap := Some (quiet 30); x_mount := Some (noting 31);
     x_unmount := Some (noting 32); x_update := None |}.

Definition imported0 : Imported U :=
  {| template := "<main>shop</main>";
     execScripts := mkExtFn 21 (fun _ p => (Fulfilled (Some exports0), p));
     assetPublicPath := "/" |}.

Definition actions0 : StateActions U :=
  {| sa_onGlobalStateChange := quiet 28; sa_setGlobalState := quiet 29;
     sa_offGlobalStateChange := quiet 33 |}.

(** Collaborators of a host with or without shadow DOM, around a given
    import-html-entry. *)
Definition extWith (shadow : bool) (importer : ExtFn U (string * value) (Imported U))
  : Externals U :=
  {| NODE_ENV := "production";
     attachShadow := shadow;
     createShadowRoot := false;
     parseFirstChild := fun markup =>
       if String.eqb markup "" then None
       else Some (Dom.set_innerHTML "<main>shop</main>" Dom.blank);
     querySelector := fun key _ =>
       if String.eqb key "#root" then Some 1
       else if String.eqb key "#side" then Some 2 else None;
     getElementById := fun _ _ => None;
     styleNodes := fun _ _ => [];
     markEntries := fun _ _ => 0;
     globalVariable := fun _ _ _ => None;
     importEntry := importer;
     getDefaultTplWrapper := fun id _ tpl => "<div id=" ++ id ++ ">" ++ tpl ++ "</div>";
     getWrapperId := fun id => "__qiankun_microapp_wrapper_for_" ++ id ++ "__";
     isEnableScopedCSS := fun _ => false;
     QiankunCSSRewriteAttr := "data-qiankun";
     cssProcess := quiet 22;
     performanceMark := quiet 23;
     performanceMeasure := quiet 24;
     validateExportLifecycle := fun e =>
       match e with
       | Some x => isSome (x_bootstrap x) && isSome (x_mount x) && isSome (x_unmount x)
       | None => false
       end;
     createSandbox := mkExtFn 25 (fun _ p =>
       (Fulfilled {| proxy := SandboxProxy 0; sb_mount := quiet 26;
                     sb_unmount := quiet 27 |}, p));
     getAddOns := fun _ _ => noLifeCycles;
     getMicroAppStateActions := fun _ => actions0;
     getXPathForElement := fun el _ => Some ("/html/body/div[" ++ pretty el ++ "]");
     showElement := fun _ => "[object HTMLDivElement]" |}.

(** The entry is fetched and parsed. *)
Definition ext0 (shadow : bool) : Externals U :=
  extWith shadow (mkExtFn 20 (fun _ p => (Fulfilled imported0, p))).

(** The entry cannot be fetched. *)
Definition extOffline : Externals U :=
  extWith false (mkExtFn 20 (fun _ p => (Rejected (Reason "Failed to fetch"), p))).

Definition app0 : LoadableApp U :=
  {| name := "shop"; entry := "//shop.example/"; props := Undefined;
     container := Some (Selector "#root"); render := None |}.

Definition cfg0 : FrameworkConfiguration U :=
  {| singular := Some (SingularFlag true); sandbox := Some (SandboxFlag true);
     excludeAssetFilter := Undefined; importEntryOpts := Undefined |}.

Definition world0 : World U :=
  {| page := page0; prevAppUnmountedDeferred := None; deferreds := [];
     cells := []; frameworkConfiguration := cfg0;
     appConfigPormiseGetterMap := ∅; trace := [] |}.

(** The same world five milliseconds later. *)
Definition world0_later : World U :=
  {| page := {| dom := dom page0; nextNode := 4; console := [];
                clock := 1600000000005%N; entropy := fun _ => 7%N;
                drawn := 0; user := [] |};
     prevAppUnmountedDeferred := None; deferreds := [];
     cells := []; frameworkConfiguration := cfg0;
     appConfigPormiseGetterMap := ∅; trace := [] |}.

(** What a load of [app0] leaves captured, for the load whose wrapper is at
    [cell]. *)
Definition loaded0 (cell : nat) (sing : Singular U)
    (hooks : FrameworkLifeCycles U) : Loaded U :=
  {| l_app := app0;
     l_appInstanceId := "shop_1600000000000_7";
     l_markName := "[qiankun] App shop_1600000000000_7 Loading";
     l_singular := sing;
     l_appContent := "<div id=shop_1600000000000_7><main>shop</main></div>";
     l_strictStyleIsolation := false;
     l_enableScopedCSS := false;
     l_cell := cell;
     l_global := SandboxProxy 0;
     l_mountSandbox := Some (quiet 26);
     l_unmountSandbox := Some (quiet 27);
     l_hooks := hooks;
     l_exports := exports0;
     l_actions := actions0 |}.

(** A world in which a load of [app0] into [#root] is already in the map. *)
Definition world_cached : World U :=
  {| page := page0; prevAppUnmountedDeferred := None; deferreds := [];
     cells := [None]; frameworkConfiguration := cfg0;
     appConfigPormiseGetterMap :=
       {[ "shop-/html/body/div[1]" :=
            Fulfilled (loaded0 0 (SingularFlag true) noLifeCycles) ]};
     trace := [] |}.

(** Two singular loads, and a world in which both are loaded. *)
Definition loadA : Loaded U := loaded0 0 (SingularFlag true) noLifeCycles.
Definition loadB : Loaded U := loaded0 1 (SingularFlag true) noLifeCycles.

Definition world2 : World U :=
  {| page := page0; prevAppUnmountedDeferred := None; deferreds := [];
     cells := [None; None]; frameworkConfiguration := cfg0;
     appConfigPormiseGetterMap := ∅; trace := [] |}.

(** A load whose second [beforeMount] hook rejects. *)
Definition loadC : Loaded U :=
  loaded0 0 (SingularFlag true)
    {| beforeLoad := []; beforeMount := [noting 50; failing 51 "boom"; noting 52];
       afterMount := [noting 53]; beforeUnmount := []; afterUnmount := [] |}.

(** A load whose singular policy is the impure predicate. *)
Definition loadD : Loaded U := loaded0 0 (SingularFn flipflop) noLifeCycles.

End Sample.

(** ** [apis.ts]: [registerMicroApps] and [start] *)

(** [FrameworkConfiguration['prefetch']] *)
Inductive Prefetch : Type :=
| PrefetchFlag (b : bool)
| PrefetchAll                         (* 'all' *)
| PrefetchList (names : list string)
| PrefetchFn.

(** [if (prefetch)] *)
Definition prefetchEnabled (p : Prefetch) : bool :=
  match p with PrefetchFlag b => b | _ => true end.

(** [typeof sandbox === 'object' ? { ...sandbox, loose: true } : { loose: true }] *)
Definition looseSandbox (s : SandboxOpt) : SandboxOpt :=
  match s with
  | SandboxObj strict experimental _ => SandboxObj strict experimental true
  | SandboxFlag _ => SandboxObj false false true
  end.

Section Apis.

Context {U : Type}.
Local Open Scope promise_scope.

(** [RegistrableApp]: the keys [loadApp] receives ([name], [props] and
    [...appConfig]) are those of [r_app]; [loader] is [None] when the key is
    absent. *)
Record RegistrableApp : Type := mkRegistrable {
  r_app : LoadableApp U;
  r_activeRule : value;
  r_loader : option (ExtFn U bool value)
}.

(** What [apis.ts] takes from single-spa, [./prefetch] and the browser. *)
Record ApiExternals : Type := mkApiExternals {
  (* called with name, activeWhen and customProps; the loading function it
     also receives is [registeredApp] below *)
  registerApplication : ExtFn U (string * value * value) value;
  startSingleSpa : ExtFn U (option value) value;
  (* called with the names of microApps, prefetch and the other options *)
  doPrefetchStrategy : ExtFn U (list string * Prefetch * (value * value)) value;
  windowProxy : bool                    (* window.Proxy *)
}.

(** [microApps.some(({name}) => name === app.name)] *)
Definition alreadyRegistered (microApps : list RegistrableApp)
    (app : RegistrableApp) : bool :=
  existsb (fun m => String.eqb (name (r_app m)) (name (r_app app))) microApps.

(** [apps.filter((app) => !microApps.some(...))] *)
Definition unregisteredApps (apps microApps : list RegistrableApp)
  : list RegistrableApp :=
  List.filter (fun app => negb (alreadyRegistered microApps app)) apps.

(** [registerMicroApps(apps, lifeCycles)], from the value of [microApps]:
    the value it assigns to [microApps], which it does before it registers
    anything, and the registrations. *)
Definition registerMicroApps (api : ApiExternals) (apps : list RegistrableApp)
    (microApps : list RegistrableApp) : list RegistrableApp * M U unit :=
  let unregistered := unregisteredApps apps microApps in
  ((microApps ++ unregistered)%list,
   forEach unregistered
     (fun app =>
        call (registerApplication api)
          (name (r_app app), r_activeRule app, props (r_app app)))).

(** [loader(b)], with [loader = noop] when the key is absent *)
Definition callLoader (loader : option (ExtFn U bool value)) (b : bool)
  : M U value :=
  match loader with
  | Some f => call f b
  | None => resolve Undefined
  end.

(** [await frameworkStartedDefer.promise]: [started] tells whether [start]
    has resolved the deferred. *)
Definition awaitStarted (started : bool) : M U value :=
  if started then resolve Undefined else (fun w => (Pending, w)).

(** The [app] function [registerMicroApps] gives single-spa for one
    application. *)
Definition registeredApp (ext : Externals U) (started : bool)
    (app : RegistrableApp) (lifeCycles : option (FrameworkLifeCycles U))
  : M U (ParcelConfigObject U) :=
  callLoader (r_loader app) true ;;
  awaitStarted started ;;
  let* configuration := read frameworkConfiguration in
  let* getter := loadApp ext (r_app app) configuration lifeCycles in
  let parcelConfig := parcelConfigGetter ext getter None in
  resolve
    {| pc_name := pc_name parcelConfig;
       pc_bootstrap := pc_bootstrap parcelConfig;
       pc_mount :=
         ((fun _ => callLoader (r_loader app) true)
            :: pc_mount parcelConfig
            ++ [fun _ => callLoader (r_loader app) false])%list;
       pc_unmount := pc_unmount parcelConfig;
       pc_update := pc_update parcelConfig |}.

(** The options of [start].  For [prefetch], [singular] and [sandbox], the
    keys [start] gives a default, a field is [None] when the key is absent,
    [Some None] when the key is there with the value [undefined], and
    [Some (Some v)] when it holds [v].
    [o_others] stands for the keys [start] does not name.  The stored
    [importEntryOpts] is what [loadApp] hands on to import-html-entry;
    [prefetch] and [urlRerouteOnly], which the source leaves in it, are not
    represented there. *)
Record StartOptions : Type := mkStartOptions {
  o_prefetch : option (option Prefetch);
  o_singular : option (option (Singular U));
  o_sandbox : option (option SandboxOpt);
  o_urlRerouteOnly : option value;
  o_excludeAssetFilter : value;
  o_others : value
}.

Definition set_frameworkConfiguration (c : FrameworkConfiguration U)
    (w : World U) : World U :=
  {| page := page w; prevAppUnmountedDeferred := prevAppUnmountedDeferred w;
     deferreds := deferreds w; cells := cells w;
     frameworkConfiguration := c;
     appConfigPormiseGetterMap := appConfigPormiseGetterMap w;
     trace := trace w |}.

(** [{ key: d, ...opts }.key]: the default when [opts] has no such key, and
    otherwise what the key holds, be it [undefined]. *)
Definition overDefault {A} (d : A) (o : option (option A)) : option A :=
  match o with
  | Some v => v
  | None => Some d
  end.

(** [if (prefetch)] and [if (sandbox)], for a value that may be
    [undefined]. *)
Definition prefetchOn (p : option Prefetch) : bool :=
  match p with Some x => prefetchEnabled x | None => false end.

Definition sandboxOn (s : option SandboxOpt) : bool :=
  match s with Some x => sandboxEnabled x | None => false end.

(** [!singular] *)
Definition notSingular (s : option (Singular U)) : bool :=
  match s with
  | Some (SingularFlag b) => negb b
  | Some (SingularFn _) => false
  | None => true
  end.

(** [start(opts)]; when it fulfils, [frameworkStartedDefer] is resolved. *)
Definition start (api : ApiExternals) (microApps : list RegistrableApp)
    (opts : StartOptions) : M U unit :=
  let prefetch := overDefault (PrefetchFlag true) (o_prefetch opts) in
  let singular := overDefault (SingularFlag true) (o_singular opts) in
  let sandbox := overDefault (SandboxFlag true) (o_sandbox opts) in
  let stored s :=
    {| singular := singular; sandbox := s;
       excludeAssetFilter := o_excludeAssetFilter opts;
       importEntryOpts := o_others opts |} in
  (fun w => (Fulfilled tt, set_frameworkConfiguration (stored sandbox) w)) ;;
  match prefetch with
  | Some p =>
      if prefetchEnabled p then
        call (doPrefetchStrategy api)
          (map (fun m => name (r_app m)) microApps, p,
           (o_excludeAssetFilter opts, o_others opts)) ;;
        resolve tt
      else resolve tt
  | None => resolve tt
  end ;;
  match sandbox with
  | Some sb =>
      if sandboxEnabled sb then
        if negb (windowProxy api) then
          modify (warn "[qiankun] Miss window.Proxy, proxySandbox will degenerate into snapshotSandbox") ;;
          (fun w => (Fulfilled tt,
                     set_frameworkConfiguration (stored (Some (looseSandbox sb))) w)) ;;
          (if notSingular singular then
             modify (warn "[qiankun] Setting singular as false may cause unexpected behavior while your browser not support window.Proxy")
           else resolve tt)
        else resolve tt
      else resolve tt
  | None => resolve tt
  end ;;
  call (startSingleSpa api) (o_urlRerouteOnly opts) ;;
  resolve tt.

End Apis.

Arguments RegistrableApp : clear implicits.
Arguments ApiExternals : clear implicits.
Arguments StartOptions : clear implicits.

(** ** Notions used to state further properties *)

Section MoreNotions.

Context {U : Type}.

(** The two worlds differ at most in the page and in the trace: what a
    render can change. *)
Definition samePrivate (w w' : World U) : Prop :=
  prevAppUnmountedDeferred w' = prevAppUnmountedDeferred w
  /\ deferreds w' = deferreds w
  /\ cells w' = cells w
  /\ frameworkConfiguration w' = frameworkConfiguration w
  /\ appConfigPormiseGetterMap w' = appConfigPormiseGetterMap w.

(** The names of a list of registered applications. *)
Definition namesOf (apps : list (RegistrableApp U)) : list string :=
  map (fun m => name (r_app m)) apps.

(** The sandbox [start] stores. *)
Definition storedSandbox (api : ApiExternals U) (opts : StartOptions U)
  : option SandboxOpt :=
  match overDefault (SandboxFlag true) (o_sandbox opts) with
  | Some s =>
      Some (if sandboxEnabled s && negb (windowProxy api) then looseSandbox s else s)
  | None => None
  end.

(** The identity of the function a singular policy calls, if it is one. *)
Definition policyId (s : Singular U) : list nat :=
  match s with
  | SingularFn f => [fn_id f]
  | SingularFlag _ => []
  end.

(** From [w] to [w'], every external function that was called is one of
    [allowed]. *)
Definition callsOnly (allowed : list nat) (w w' : World U) : Prop :=
  exists made,
    trace w' = (trace w ++ made)%list /\ Forall (fun id => In id allowed) made.

(** What a load of [app] under [cfg] leaves captured in its getter, as far
    as it is fixed by the descriptor and the configuration. *)
Definition captures (ext : Externals U) (app : LoadableApp U)
    (cfg : FrameworkConfiguration U) (ld : Loaded U) : Prop :=
  l_app ld = app
  /\ validateExportLifecycle ext (Some (l_exports ld)) = true
  /\ l_singular ld = default (SingularFlag false) (singular cfg)
  /\ l_strictStyleIsolation ld
     = match default (SandboxFlag true) (sandbox cfg) with
       | SandboxObj strict _ _ => strict
       | SandboxFlag _ => false
       end
  /\ l_enableScopedCSS ld
     = isEnableScopedCSS ext (Some (default (SandboxFlag true) (sandbox cfg)))
  /\ (sandboxEnabled (default (SandboxFlag true) (sandbox cfg)) = false ->
      l_global ld = Window /\ l_mountSandbox ld = None /\ l_unmountSandbox ld = None).

(** The singular deferred [d] is assigned and nobody has resolved it. *)
Definition tokenHeld (d : nat) (w : World U) : Prop :=
  prevAppUnmountedDeferred w = Some d
  /\ exists x, deferreds w !! d = Some x /\ resolved x = false.

(** The value of the rewrite attribute after the wrapper getter has run. *)
Definition rewriteAttrAfter (old : option string) (appName : string) : string :=
  match old with
  | Some v => if String.eqb v "" then appName else v
  | None => appName
  end.

End MoreNotions.

(** ** More sample data *)

Module SampleApis.

Import Sample.

Definition api0 (hasProxy : bool) : ApiExternals U :=
  {| registerApplication := quiet 60;
     startSingleSpa := quiet 61;
     doPrefetchStrategy := quiet 62;
     windowProxy := hasProxy |}.

Definition shop : RegistrableApp U :=
  {| r_app := app0; r_activeRule := Val "/shop"; r_loader := Some (noting 63) |}.

Definition blog : RegistrableApp U :=
  {| r_app := {| name := "blog"; entry := "//blog.example/"; props := Undefined;
                 container := Some (Selector "#side"); render := None |};
     r_activeRule := Val "/blog"; r_loader := None |}.

(** [start()] with no options. *)
Definition noOptions : StartOptions U :=
  {| o_prefetch := None; o_singular := None; o_sandbox := None;
     o_urlRerouteOnly := None; o_excludeAssetFilter := Undefined;
     o_others := Undefined |}.

(** An application rendered by a legacy render function, loaded with strict
    style isolation. *)
Definition legacyApp : LoadableApp U :=
  {| name := "old"; entry := "//old.example/"; props := Undefined;
     container := None; render := Some (noting 70) |}.

Definition loadLegacyStrict : Loaded U :=
  {| l_app := legacyApp;
     l_appInstanceId := "old_1600000000000_7";
     l_markName := "[qiankun] App old_1600000000000_7 Loading";
     l_singular := SingularFlag false;
     l_appContent := "<div id=old_1600000000000_7><main>shop</main></div>";
     l_strictStyleIsolation := true;
     l_enableScopedCSS := false;
     l_cell := 0;
     l_global := SandboxProxy 0;
     l_mountSandbox := Some (quiet 26);
     l_unmountSandbox := Some (quiet 27);
     l_hooks := noLifeCycles;
     l_exports := exports0;
     l_actions := actions0 |}.

(** An application without container and without render function. *)
Definition homeless : LoadableApp U :=
  {| name := "lost"; entry := "//lost.example/"; props := Undefined;
     container := None; render := None |}.

(** A configuration without [singular]. *)
Definition cfgBare : FrameworkConfiguration U :=
  {| singular := None; sandbox := None;
     excludeAssetFilter := Undefined; importEntryOpts := Undefined |}.

(** The world in which [loadA] is mounted: its wrapper (node 3) is the only
    child of [#root]. *)
Definition worldMounted : World U :=
  {| page :=
       {| dom := <[3 := Dom.set_parent (Some 1) Dom.blank]>
                   (<[2 := Dom.set_parent (Some 0) Dom.blank]>
                      (<[1 := Dom.set_children [3] (Dom.set_parent (Some 0) Dom.blank)]>
                         (<[0 := Dom.set_children [1; 2] Dom.blank]> ∅)));
          nextNode := 4; console := []; clock := 1600000000000%N;
          entropy := fun _ => 7%N; drawn := 0; user := [] |};
     prevAppUnmountedDeferred := None; deferreds := [];
     cells := [Some 3]; frameworkConfiguration := cfg0;
     appConfigPormiseGetterMap := ∅; trace := [] |}.

(** [worldMounted] once the mount of [loadA] has issued the singular
    deferred. *)
Definition worldBusy : World U :=
  set_prev (Some 0) (set_deferreds [mkDeferred false 0 []] worldMounted).

(** [start({ singular: undefined, sandbox: undefined })] *)
Definition undefinedOptions : StartOptions U :=
  {| o_prefetch := None; o_singular := Some None; o_sandbox := Some None;
     o_urlRerouteOnly := None; o_excludeAssetFilter := Undefined;
     o_others := Undefined |}.

(** An impure singular predicate that answers [true] at its second call and
    at every third call after it. *)
Definition mounting : ExtFn U (LoadableApp U) bool :=
  mkExtFn 41
    (fun _ p => (Fulfilled (Nat.eqb (length (user p) mod 3) 1),
                 set_user (user p ++ [41])%list p)).

(** Two loads under that policy. *)
Definition loadE : Loaded U := loaded0 0 (SingularFn mounting) noLifeCycles.
Definition loadF : Loaded U := loaded0 1 (SingularFn mounting) noLifeCycles.

(** A load of [app0] with strict style isolation. *)
Definition loadStrict : Loaded U :=
  {| l_app := app0;
     l_appInstanceId := "shop_1600000000000_7";
     l_markName := "[qiankun] App shop_1600000000000_7 Loading";
     l_singular := SingularFlag true;
     l_appContent := "<div id=shop_1600000000000_7><main>shop</main></div>";
     l_strictStyleIsolation := true;
     l_enableScopedCSS := false;
     l_cell := 0;
     l_global := SandboxProxy 0;
     l_mountSandbox := Some (quiet 26);
     l_unmountSandbox := Some (quiet 27);
     l_hooks := noLifeCycles;
     l_exports := exports0;
     l_actions := actions0 |}.

(** An application with an empty selector for container. *)
Definition unplaced : LoadableApp U :=
  {| name := "shop"; entry := "//shop.example/"; props := Undefined;
     container := Some (Selector ""); render := None |}.

(** [app0] described again, with another entry. *)
Definition app0_moved : LoadableApp U :=
  {| name := "shop"; entry := "//shop-v2.example/"; props := Val "v2";
     container := Some (Selector "#root"); render := None |}.

End SampleApis.

(** * Properties *)

Section HookChain.

Context {U : Type}.
Local Open Scope list_scope.
Implicit Types (w : World U) (app : LoadableApp U) (g : Global).

Lemma call_trace {I O} (f : ExtFn U I O) (i : I) w :
  trace (snd (call f i w)) = trace w ++ [fn_id f].
Proof.
  unfold call. destruct (fn_body f i (page w)) as [o p]. reflexivity.
Qed.

(** A chain built by [reduce] depends on its initial promise only through
    the way that promise settles. *)
Lemma fold_chain_settles app g (hooks : list (LifeCycleFn U)) :
  forall (acc : M U value) w,
    fold_left (chainStep app g) hooks acc w =
    match acc w with
    | (Fulfilled v, w1) => fold_left (chainStep app g) hooks (resolve v) w1
    | (Rejected e, w1) => (Rejected e, w1)
    | (Pending, w1) => (Pending, w1)
    end.
Proof.
  induction hooks as [|h rest IH]; intros acc w; simpl.
  - destruct (acc w) as [[v|e|] w1]; reflexivity.
  - rewrite (IH (chainStep app g acc h) w).
    assert (Hstep : chainStep app g acc h w =
                    match acc w with
                    | (Fulfilled _, w1) => call h (app, g) w1
                    | (Rejected e, w1) => (Rejected e, w1)
                    | (Pending, w1) => (Pending, w1)
                    end) by reflexivity.
    rewrite Hstep. destruct (acc w) as [[v|e|] w1]; try reflexivity.
    rewrite (IH (chainStep app g (resolve v) h) w1). reflexivity.
Qed.

Lemma fold_chain_ext app g (hooks : list (LifeCycleFn U)) (a b : M U value) :
  (forall w, a w = b w) ->
  forall w, fold_left (chainStep app g) hooks a w
            = fold_left (chainStep app g) hooks b w.
Proof.
  intros Hab w. rewrite (fold_chain_settles app g hooks a),
    (fold_chain_settles app g hooks b), Hab. reflexivity.
Qed.

Lemma execHooksChain_fold app g (hooks : list (LifeCycleFn U)) w :
  execHooksChain hooks app g w
  = fold_left (chainStep app g) hooks (resolve Undefined) w.
Proof.
  unfold execHooksChain. destruct hooks; reflexivity.
Qed.

(** The chain of [h :: rest]: [h] is called first, and the rest of the chain
    starts in the world in which the promise of [h] fulfilled. *)
Lemma execHooksChain_cons app g (h : LifeCycleFn U) rest w :
  execHooksChain (h :: rest) app g w =
  match call h (app, g) w with
  | (Fulfilled v, w1) =>
      match rest with
      | [] => (Fulfilled v, w1)
      | _ :: _ => execHooksChain rest app g w1
      end
  | (Rejected e, w1) => (Rejected e, w1)
  | (Pending, w1) => (Pending, w1)
  end.
Proof.
  rewrite execHooksChain_fold. simpl fold_left. rewrite fold_chain_settles.
  assert (Hstep : chainStep app g (resolve Undefined) h w = call h (app, g) w)
    by reflexivity.
  rewrite Hstep.
  destruct (call h (app, g) w) as [[v|e|] w1]; try reflexivity.
  destruct rest as [|h' rest']; [reflexivity|].
  rewrite execHooksChain_fold. simpl fold_left.
  apply fold_chain_ext. intros w'. reflexivity.
Qed.

(** A chain that has fulfilled called every hook, in order. *)
Lemma execHooksChain_fulfilled_trace app g (hooks : list (LifeCycleFn U)) :
  forall w v w1,
    execHooksChain hooks app g w = (Fulfilled v, w1) ->
    trace w1 = trace w ++ map fn_id hooks.
Proof.
  induction hooks as [|h rest IH]; intros w v w1 H.
  - inversion H; subst. simpl. now rewrite app_nil_r.
  - rewrite execHooksChain_cons in H.
    pose proof (call_trace h (app, g) w) as Ht.
    destruct (call h (app, g) w) as [[v'|e|] w'] eqn:Hc; try discriminate.
    simpl in Ht. destruct rest as [|h' rest'].
    + inversion H; subst. simpl. exact Ht.
    + apply IH in H. rewrite H, Ht. simpl. now rewrite <- app_assoc.
Qed.

(** When the hooks of [pre] have fulfilled, what is left of the chain runs
    from the world they left. *)
Lemma execHooksChain_app app g (pre : list (LifeCycleFn U)) :
  forall h post w v w1,
    execHooksChain pre app g w = (Fulfilled v, w1) ->
    execHooksChain (pre ++ h :: post) app g w
    = execHooksChain (h :: post) app g w1.
Proof.
  induction pre as [|p pre IH]; intros h post w v w1 H.
  - inversion H; subst. reflexivity.
  - simpl. rewrite execHooksChain_cons. rewrite execHooksChain_cons in H.
    destruct (call p (app, g) w) as [[v'|e|] w'] eqn:Hc; try discriminate.
    destruct pre as [|p' pre'].
    + inversion H; subst. reflexivity.
    + simpl. simpl in IH. erewrite IH by exact H. reflexivity.
Qed.

(** When the hooks of [pre] have fulfilled and [h] rejects, the chain rejects
    as [h] did, and the hooks called are those of [pre] and [h]. *)
Lemma execHooksChain_abort app g (pre : list (LifeCycleFn U)) h post w v w1 e w2 :
  execHooksChain pre app g w = (Fulfilled v, w1) ->
  call h (app, g) w1 = (Rejected e, w2) ->
  execHooksChain (pre ++ h :: post) app g w = (Rejected e, w2)
  /\ trace w2 = trace w ++ map fn_id pre ++ [fn_id h].
Proof.
  intros Hpre Hh. split.
  - transitivity (execHooksChain (h :: post) app g w1).
    + exact (execHooksChain_app app g pre h post w v w1 Hpre).
    + rewrite execHooksChain_cons, Hh. reflexivity.
  - pose proof (call_trace h (app, g) w1) as Ht. rewrite Hh in Ht. simpl in Ht.
    rewrite Ht, (execHooksChain_fulfilled_trace app g pre w v w1 Hpre).
    now rewrite app_assoc.
Qed.

(** C4. [execHooksChain] resolves at once for the empty list; it calls the
    first hook first and starts the rest of the chain only in the world in
    which that hook's promise fulfilled (a hook that never settles holds the
    chain); and when the hooks before [h] have fulfilled and [h] rejects, the
    chain rejects with the value [h] rejected with, in the world [h] left,
    and the hooks called are exactly those up to [h]: none of [post] is
    called. *)
Theorem execHooksChain_sequential app g :
  (forall w, execHooksChain [] app g w = (Fulfilled Undefined, w)) /\
  (forall (h : LifeCycleFn U) rest w,
      execHooksChain (h :: rest) app g w =
      match call h (app, g) w with
      | (Fulfilled v, w1) =>
          match rest with
          | [] => (Fulfilled v, w1)
          | _ :: _ => execHooksChain rest app g w1
          end
      | (Rejected e, w1) => (Rejected e, w1)
      | (Pending, w1) => (Pending, w1)
      end) /\
  (forall (hooks : list (LifeCycleFn U)) w v w1,
      execHooksChain hooks app g w = (Fulfilled v, w1) ->
      trace w1 = trace w ++ map fn_id hooks) /\
  (forall (pre : list (LifeCycleFn U)) h post w v w1 e w2,
      execHooksChain pre app g w = (Fulfilled v, w1) ->
      call h (app, g) w1 = (Rejected e, w2) ->
      execHooksChain (pre ++ h :: post) app g w = (Rejected e, w2)
      /\ trace w2 = trace w ++ map fn_id pre ++ [fn_id h]).
Proof.
  split; [reflexivity|].
  split; [apply execHooksChain_cons|].
  split; [apply execHooksChain_fulfilled_trace|].
  intros pre h post w v w1 e w2 Hpre Hh.
  exact (execHooksChain_abort app g pre h post w v w1 e w2 Hpre Hh).
Qed.

End HookChain.

(** ** The DOM operations of [render] *)

Section DomFacts.

Local Open Scope list_scope.
Implicit Types (d : Dom.Heap) (c e x : nat).

Lemma node_update_eq d x f : Dom.node (Dom.update x f d) x = f (Dom.node d x).
Proof. unfold Dom.update, Dom.node. now rewrite lookup_insert_eq. Qed.

Lemma node_update_ne d x y f :
  x <> y -> Dom.node (Dom.update x f d) y = Dom.node d y.
Proof. intros H. unfold Dom.update, Dom.node. now rewrite lookup_insert_ne. Qed.

Lemma fewer_links_refl d : fewer_links d d.
Proof. intros y p H. exact H. Qed.

Lemma fewer_links_trans d1 d2 d3 :
  fewer_links d1 d2 -> fewer_links d2 d3 -> fewer_links d1 d3.
Proof. intros H12 H23 y p H. apply H23, H12, H. Qed.

Lemma fewer_links_ancestor d' d c e :
  fewer_links d' d -> Dom.Ancestor d' c e -> Dom.Ancestor d c e.
Proof.
  intros Hle H. induction H as [|e p Hp _ IH].
  - constructor.
  - eapply Dom.anc_parent; [apply Hle, Hp | exact IH].
Qed.

(** The bounded walk finds only ancestors. *)
Lemma ancestor_within_sound fuel d c :
  forall e, Dom.ancestor_within fuel d c e = true -> Dom.Ancestor d c e.
Proof.
  induction fuel as [|k IH]; intros e H; simpl in H; [discriminate|].
  destruct (Nat.eqb_spec c e) as [->|Hne]; [constructor|].
  destruct (Dom.parentNode (Dom.node d e)) as [p|] eqn:Hp; [|discriminate].
  eapply Dom.anc_parent; [exact Hp | apply IH, H].
Qed.

Lemma reaches_root_sound fuel d c :
  forall e, Dom.reaches_root fuel d c e = true -> ~ Dom.Ancestor d c e.
Proof.
  induction fuel as [|k IH]; intros e H Hanc; simpl in H; [discriminate|].
  destruct (Nat.eqb_spec c e) as [Heq|Hne]; [discriminate|].
  destruct (Dom.parentNode (Dom.node d e)) as [p|] eqn:Hp.
  - inversion Hanc as [Hself|e' p' Hp' Hanc']; subst; [congruence|].
    rewrite Hp in Hp'. inversion Hp'; subst. exact (IH _ H Hanc').
  - inversion Hanc as [Hself|e' p' Hp' Hanc']; subst; congruence.
Qed.

Lemma not_ancestor_contains d c e :
  ~ Dom.Ancestor d c e -> Dom.contains d c (Some e) = false.
Proof.
  intros H. destruct (Dom.contains d c (Some e)) eqn:Hc; [|reflexivity].
  exfalso. apply H. eapply ancestor_within_sound. exact Hc.
Qed.

(** Dropping the links of [x]: what removing or detaching a child does to
    the parent links. *)
Lemma unlink_fewer d p x l :
  fewer_links
    (Dom.update x (Dom.set_parent None) (Dom.update p (Dom.set_children l) d)) d.
Proof.
  intros y q H. destruct (decide (x = y)) as [->|Hxy].
  - rewrite node_update_eq in H. discriminate.
  - rewrite node_update_ne in H by exact Hxy.
    destruct (decide (p = y)) as [->|Hpy].
    + rewrite node_update_eq in H. exact H.
    + rewrite node_update_ne in H by exact Hpy. exact H.
Qed.

Lemma detach_fewer d x : fewer_links (Dom.detach x d) d.
Proof.
  unfold Dom.detach. destruct (Dom.parentNode (Dom.node d x)).
  - apply unlink_fewer.
  - apply fewer_links_refl.
Qed.

(** Detaching [x] leaves the children of a childless [c] alone. *)
Lemma detach_children_nil d c x :
  Dom.childNodes (Dom.node d c) = [] ->
  Dom.childNodes (Dom.node (Dom.detach x d) c) = [].
Proof.
  intros Hc. unfold Dom.detach.
  destruct (Dom.parentNode (Dom.node d x)) as [p|]; [|exact Hc].
  destruct (decide (x = c)) as [->|Hxc].
  - rewrite node_update_eq. simpl.
    destruct (decide (p = c)) as [->|Hpc].
    + rewrite node_update_eq. simpl. now rewrite Hc.
    + now rewrite node_update_ne.
  - rewrite node_update_ne by exact Hxc.
    destruct (decide (p = c)) as [->|Hpc].
    + rewrite node_update_eq. simpl. now rewrite Hc.
    + now rewrite node_update_ne.
Qed.

(** Removing the first child shortens the list of children by its head. *)
Lemma removeChild_first d c x rest :
  Dom.childNodes (Dom.node d c) = x :: rest ->
  exists d', Dom.removeChild c x d = inr d'
             /\ Dom.childNodes (Dom.node d' c) = rest
             /\ fewer_links d' d.
Proof.
  intros Hc. unfold Dom.removeChild. rewrite Hc.
  destruct (decide (x ∈ x :: rest)) as [_|Hn]; [|exfalso; apply Hn; left].
  eexists. split; [reflexivity|]. split; [|apply unlink_fewer].
  simpl. rewrite Nat.eqb_refl.
  destruct (decide (x = c)) as [->|Hxc].
  - rewrite node_update_eq. simpl. now rewrite node_update_eq.
  - rewrite node_update_ne by exact Hxc. now rewrite node_update_eq.
Qed.

(** Appending to a childless [c] an [x] that is neither [c] nor above it. *)
Lemma appendChild_childless d c x :
  Dom.childNodes (Dom.node d c) = [] ->
  ~ Dom.Ancestor d x c ->
  exists d', Dom.appendChild c x d = inr d'
             /\ Dom.childNodes (Dom.node d' c) = [x]
             /\ Dom.parentNode (Dom.node d' x) = Some c
             /\ Dom.contains d' c (Some x) = true.
Proof.
  intros Hc Hanc. unfold Dom.appendChild.
  rewrite (not_ancestor_contains d x c Hanc).
  assert (Hxc : x <> c) by (intros ->; apply Hanc; constructor).
  eexists. split; [reflexivity|].
  rewrite (detach_children_nil d c x Hc). simpl.
  split; [|split].
  - rewrite node_update_ne by exact Hxc. now rewrite node_update_eq.
  - now rewrite node_update_eq.
  - unfold Dom.contains. simpl.
    destruct (Nat.eqb_spec c x) as [Heq|_]; [congruence|].
    rewrite node_update_eq. simpl.
    match goal with |- Dom.ancestor_within (size ?m) _ _ _ = true =>
      destruct (size m) eqn:Hsz end.
    + apply map_size_empty_iff in Hsz. unfold Dom.update in Hsz.
      exfalso. revert Hsz. apply insert_non_empty.
    + simpl. now rewrite Nat.eqb_refl.
Qed.

End DomFacts.

(** ** The render function *)

Section RenderFacts.

Context {U : Type} (ext : Externals U).
Local Open Scope list_scope.
Implicit Types (w : World U) (k el : nat).

Lemma set_dom_same w : set_page (set_dom (dom (page w)) (page w)) w = w.
Proof. destruct w as [[] ? ? ? ? ? ?]. reflexivity. Qed.

Lemma set_dom_twice w d1 d2 :
  set_page (set_dom d2 (page (set_page (set_dom d1 (page w)) w)))
    (set_page (set_dom d1 (page w)) w)
  = set_page (set_dom d2 (page w)) w.
Proof. reflexivity. Qed.

(** The loop that clears a container ends, with the container empty. *)
Lemma clearContainer_ok n k :
  forall w,
    length (Dom.childNodes (Dom.node (dom (page w)) k)) <= n ->
    exists d',
      clearContainer n k w = (Fulfilled tt, set_page (set_dom d' (page w)) w)
      /\ Dom.childNodes (Dom.node d' k) = []
      /\ fewer_links d' (dom (page w)).
Proof.
  induction n as [|n IH]; intros w Hlen;
    destruct (Dom.childNodes (Dom.node (dom (page w)) k)) as [|x rest] eqn:Hc;
    simpl in Hlen; try lia.
  - exists (dom (page w)). rewrite set_dom_same.
    simpl. unfold Dom.firstChild. rewrite Hc. simpl.
    split; [reflexivity|].
    split; [first [exact Hc | reflexivity] | apply fewer_links_refl].
  - exists (dom (page w)). rewrite set_dom_same.
    simpl. unfold Dom.firstChild. rewrite Hc. simpl.
    split; [reflexivity|].
    split; [first [exact Hc | reflexivity] | apply fewer_links_refl].
  - destruct (removeChild_first _ _ _ _ Hc) as (d1 & Hrm & Hc1 & Hle1).
    destruct (IH (set_page (set_dom d1 (page w)) w)) as (d' & Hrun & Hc' & Hle').
    { simpl. rewrite Hc1. lia. }
    exists d'. simpl. unfold Dom.firstChild. rewrite Hc. simpl. rewrite Hrm.
    rewrite Hrun. split; [reflexivity|]. split; [exact Hc'|].
    eapply fewer_links_trans; [exact Hle' | exact Hle1].
Qed.

(** The managed render (no legacy render function), case by case. *)
Lemma getRender_managed appName appContent container props phase w :
  getRender ext appName appContent container None props phase w =
  match getContainer ext (or_else (remountContainer props) container) (page w) with
  | None =>
      if phase_eqb phase Unmounted then (Fulfilled Undefined, w)
      else (Rejected (Error (containerMissing ext container appName phase)), w)
  | Some k =>
      if Dom.contains (dom (page w)) k (element props) then (Fulfilled Undefined, w)
      else
        match clearContainer
                (length (Dom.childNodes (Dom.node (dom (page w)) k))) k w with
        | (Fulfilled _, w1) =>
            match element props with
            | Some el =>
                match Dom.appendChild k el (dom (page w1)) with
                | inl e => (Rejected e, w1)
                | inr d => (Fulfilled Undefined, set_page (set_dom d (page w1)) w1)
                end
            | None => (Fulfilled Undefined, w1)
            end
        | (Rejected e, w1) => (Rejected e, w1)
        | (Pending, w1) => (Pending, w1)
        end
  end.
Proof.
  unfold getRender, then_, read.
  destruct (getContainer ext (or_else (remountContainer props) container) (page w))
    as [k|].
  - assert (Hassert : (if negb (phase_eqb phase Unmounted)
                       then assertElementExist (Some k)
                              (Some (containerMissing ext container appName phase))
                       else resolve tt) w = (Fulfilled tt, w))
      by (destruct phase; reflexivity).
    rewrite Hassert.
    destruct (Dom.contains (dom (page w)) k (element props)); [reflexivity|].
    cbn [negb].
    destruct (clearContainer _ k w) as [[[]|e|] w1]; try reflexivity.
    destruct (element props) as [el|]; [|reflexivity].
    unfold domOp. destruct (Dom.appendChild k el (dom (page w1))); reflexivity.
  - destruct phase; reflexivity.
Qed.

(** A call of the managed render whose element is not yet under the
    container it resolves, and is not above it either: the container is
    emptied and the element becomes its only child. *)
Lemma render_attaches appName appContent container el l rc phase w k :
  getContainer ext (or_else rc container) (page w) = Some k ->
  Dom.contains (dom (page w)) k (Some el) = false ->
  ~ Dom.Ancestor (dom (page w)) el k ->
  exists d',
    getRender ext appName appContent container None
      (mkRenderProps (Some el) l rc) phase w
    = (Fulfilled Undefined, set_page (set_dom d' (page w)) w)
    /\ Dom.childNodes (Dom.node d' k) = [el]
    /\ Dom.parentNode (Dom.node d' el) = Some k
    /\ Dom.contains d' k (Some el) = true.
Proof.
  intros Hget Hout Hanc.
  destruct (clearContainer_ok
              (length (Dom.childNodes (Dom.node (dom (page w)) k))) k w (le_n _))
    as (d1 & Hclear & Hc1 & Hle1).
  destruct (appendChild_childless d1 k el Hc1) as (d2 & Happ & Hc2 & Hp2 & Hin2).
  { intros H. apply Hanc. eapply fewer_links_ancestor; eassumption. }
  exists d2. split; [|now repeat split].
  rewrite getRender_managed. cbn [remountContainer element].
  rewrite Hget, Hout, Hclear. cbn [page set_page dom set_dom].
  rewrite Happ. reflexivity.
Qed.

(** A call of the managed render whose element is already under the
    container it resolves changes nothing. *)
Lemma render_noop appName appContent container (e : option nat) l rc phase w k :
  getContainer ext (or_else rc container) (page w) = Some k ->
  Dom.contains (dom (page w)) k e = true ->
  getRender ext appName appContent container None
    (mkRenderProps e l rc) phase w
  = (Fulfilled Undefined, w).
Proof.
  intros Hget Hin. rewrite getRender_managed. cbn [remountContainer element].
  rewrite Hget, Hin. reflexivity.
Qed.

(** C5. The managed render is idempotent.  When the element is already under
    the container the call resolves, the call leaves the world as it is.
    Otherwise (the element not being the container or above it) the call
    empties the container and makes the element its only child.  Either way
    the element is under the container afterwards, and a second call with
    the same arguments that resolves the same container changes nothing. *)
Theorem render_idempotent appName appContent container el l rc phase w k :
  getContainer ext (or_else rc container) (page w) = Some k ->
  Dom.contains (dom (page w)) k (Some el) = true
    \/ ~ Dom.Ancestor (dom (page w)) el k ->
  exists w1,
    getRender ext appName appContent container None
      (mkRenderProps (Some el) l rc) phase w = (Fulfilled Undefined, w1)
    /\ (Dom.contains (dom (page w)) k (Some el) = true -> w1 = w)
    /\ (Dom.contains (dom (page w)) k (Some el) = false ->
        Dom.childNodes (Dom.node (dom (page w1)) k) = [el])
    /\ Dom.contains (dom (page w1)) k (Some el) = true
    /\ (getContainer ext (or_else rc container) (page w1) = Some k ->
        getRender ext appName appContent container None
          (mkRenderProps (Some el) l rc) phase w1 = (Fulfilled Undefined, w1)).
Proof.
  intros Hget Hcase.
  destruct (Dom.contains (dom (page w)) k (Some el)) eqn:Hin.
  - exists w. split; [now apply render_noop with (k := k)|].
    split; [reflexivity|]. split; [discriminate|]. split; [exact Hin|].
    intros _. now apply render_noop with (k := k).
  - destruct Hcase as [Hc|Hanc]; [discriminate|].
    destruct (render_attaches appName appContent container el l rc phase w k
                Hget Hin Hanc) as (d' & Hrun & Hkids & _ & Hin').
    exists (set_page (set_dom d' (page w)) w).
    split; [exact Hrun|]. split; [discriminate|].
    split; [intros _; exact Hkids|]. split; [exact Hin'|].
    intros Hget'. now apply render_noop with (k := k).
Qed.

(** C6. When the container of a managed render cannot be resolved, the call
    throws the configuration error of its phase for [loading], [mounting]
    and [mounted], and returns normally, the world unchanged, for
    [unmounted]. *)
Theorem render_missing_container appName appContent container props phase w :
  getContainer ext (or_else (remountContainer props) container) (page w) = None ->
  getRender ext appName appContent container None props phase w =
  match phase with
  | Unmounted => (Fulfilled Undefined, w)
  | Loading | Mounting | Mounted =>
      (Rejected (Error (containerMissing ext container appName phase)), w)
  end.
Proof.
  intros Hget. rewrite getRender_managed, Hget. destruct phase; reflexivity.
Qed.

(** C7, amended.  Every call of the managed render resolves its container
    from [remountContainer || container] in the page of the call: the
    element ends up as the only child of that container.  A later call
    whose [remountContainer] resolves, in the page it finds, another
    container moves the element there: the element becomes the only child
    of that container and has it as its parent. *)
Theorem render_resolves_per_call appName appContent container el
    l1 l2 ph1 ph2 rc1 rc2 w k1 :
  getContainer ext (or_else rc1 container) (page w) = Some k1 ->
  Dom.contains (dom (page w)) k1 (Some el) = false ->
  ~ Dom.Ancestor (dom (page w)) el k1 ->
  exists w1,
    getRender ext appName appContent container None
      (mkRenderProps (Some el) l1 rc1) ph1 w = (Fulfilled Undefined, w1)
    /\ Dom.childNodes (Dom.node (dom (page w1)) k1) = [el]
    /\ forall k2,
        getContainer ext (or_else rc2 container) (page w1) = Some k2 ->
        k2 <> k1 ->
        Dom.contains (dom (page w1)) k2 (Some el) = false ->
        ~ Dom.Ancestor (dom (page w1)) el k2 ->
        exists w2,
          getRender ext appName appContent container None
            (mkRenderProps (Some el) l2 rc2) ph2 w1 = (Fulfilled Undefined, w2)
          /\ Dom.childNodes (Dom.node (dom (page w2)) k2) = [el]
          /\ Dom.parentNode (Dom.node (dom (page w2)) el) = Some k2.
Proof.
  intros Hget Hout Hanc.
  destruct (render_attaches appName appContent container el l1 rc1 ph1 w k1
              Hget Hout Hanc) as (d1 & Hrun1 & Hkids1 & Hp1 & _).
  exists (set_page (set_dom d1 (page w)) w).
  split; [exact Hrun1|]. split; [exact Hkids1|].
  intros k2 Hget2 Hne Hout2 Hanc2.
  destruct (render_attaches appName appContent container el l2 rc2 ph2 _ k2
              Hget2 Hout2 Hanc2) as (d2 & Hrun2 & Hkids2 & Hp2 & _).
  eexists. split; [exact Hrun2|]. split; [exact Hkids2 | exact Hp2].
Qed.

End RenderFacts.

(** ** Worked examples for the hook chain and the render function *)

Section RenderExamples.

Import Sample.
Local Open Scope list_scope.

Lemma execHooksChain_sequential_witness :
  exists w2,
    execHooksChain [noting 50; failing 51 "boom"; noting 52] app0 Window world0
    = (Rejected (Reason "boom"), w2)
    /\ trace w2 = [50; 51]
    /\ user (page w2) = [50].
Proof.
  destruct (execHooksChain_sequential app0 Window) as (_ & _ & _ & Habort).
  edestruct (Habort [noting 50] (failing 51 "boom") [noting 52] world0)
    as [Hrun Htrace]; [reflexivity | reflexivity |].
  eexists. split; [exact Hrun|]. split; [exact Htrace | reflexivity].
Defined.

Lemma render_idempotent_witness :
  exists w1,
    getRender (ext0 false) "shop" "" (Some (Handle 1)) None
      (mkRenderProps (Some 3) false None) Mounted world0
    = (Fulfilled Undefined, w1)
    /\ Dom.childNodes (Dom.node (dom (page w1)) 1) = [3]
    /\ getRender (ext0 false) "shop" "" (Some (Handle 1)) None
         (mkRenderProps (Some 3) false None) Mounted w1
       = (Fulfilled Undefined, w1).
Proof.
  destruct (render_idempotent (ext0 false) "shop" "" (Some (Handle 1)) 3 false
              None Mounted world0 1) as (w1 & Hrun & _ & Hkids & _ & Hagain).
  - reflexivity.
  - right. apply (reaches_root_sound 3). reflexivity.
  - exists w1. split; [exact Hrun|].
    split; [apply Hkids; reflexivity | apply Hagain; reflexivity].
Defined.

Lemma render_missing_container_witness :
  getRender (ext0 false) "shop" "" (Some (Selector "#gone")) None
    (mkRenderProps (Some 3) true None) Mounting world0
  = (Rejected (Error "[qiankun] Target container with #gone not existed while shop mounting!"),
     world0)
  /\ getRender (ext0 false) "shop" "" (Some (Selector "#gone")) None
       (mkRenderProps None false None) Unmounted world0
     = (Fulfilled Undefined, world0).
Proof.
  split.
  - exact (render_missing_container (ext0 false) "shop" ""
             (Some (Selector "#gone")) (mkRenderProps (Some 3) true None)
             Mounting world0 eq_refl).
  - exact (render_missing_container (ext0 false) "shop" ""
             (Some (Selector "#gone")) (mkRenderProps None false None)
             Unmounted world0 eq_refl).
Defined.

(** With the empty string as [remountContainer], the code renders into
    [container] (node 1), where [remountContainer ?? container] designates
    the empty key, which resolves to nothing. *)
Lemma render_nullish_counterexample :
  targetPerNullish (ext0 false) (Some (Handle 1))
    (mkRenderProps (Some 3) false (Some (Selector ""))) page0 = None
  /\ exists w1,
      getRender (ext0 false) "shop" "" (Some (Handle 1)) None
        (mkRenderProps (Some 3) false (Some (Selector ""))) Mounted world0
      = (Fulfilled Undefined, w1)
      /\ Dom.childNodes (Dom.node (dom (page w1)) 1) = [3].
Proof.
  split; [reflexivity|].
  eexists. split; [vm_compute; reflexivity | vm_compute; reflexivity].
Qed.

Lemma render_resolves_per_call_witness :
  exists w1 w2,
    getRender (ext0 false) "shop" "" (Some (Selector "#root")) None
      (mkRenderProps (Some 3) true None) Mounting world0
    = (Fulfilled Undefined, w1)
    /\ Dom.childNodes (Dom.node (dom (page w1)) 1) = [3]
    /\ getRender (ext0 false) "shop" "" (Some (Selector "#root")) None
         (mkRenderProps (Some 3) false (Some (Selector "#side"))) Mounted w1
       = (Fulfilled Undefined, w2)
    /\ Dom.childNodes (Dom.node (dom (page w2)) 2) = [3]
    /\ Dom.parentNode (Dom.node (dom (page w2)) 3) = Some 2.
Proof.
  destruct (render_resolves_per_call (ext0 false) "shop" ""
              (Some (Selector "#root")) 3 true false Mounting Mounted
              None (Some (Selector "#side")) world0 1)
    as (w1 & Hrun1 & Hkids1 & Hnext).
  - reflexivity.
  - reflexivity.
  - apply (reaches_root_sound 3). reflexivity.
  - assert (Hw1 : w1 = snd (getRender (ext0 false) "shop" ""
                               (Some (Selector "#root")) None
                               (mkRenderProps (Some 3) true None) Mounting world0))
      by (rewrite Hrun1; reflexivity).
    destruct (Hnext 2) as (w2 & Hrun2 & Hkids2 & Hparent2).
    + reflexivity.
    + discriminate.
    + rewrite Hw1. vm_compute. reflexivity.
    + rewrite Hw1. apply (reaches_root_sound 3). vm_compute. reflexivity.
    + exists w1, w2. repeat split; assumption.
Defined.

End RenderExamples.

(** ** The wrapper builder *)

Section WrapperFacts.

Context {U : Type} (ext : Externals U).
Local Open Scope list_scope.
Implicit Types (w : World U).

(** Without strict isolation, [createElement] is the parse alone. *)
Lemma createElement_plain content w :
  createElement ext content false w
  = (Fulfilled (fst (parseInto ext content (page w))),
     set_page (snd (parseInto ext content (page w))) w).
Proof.
  unfold createElement, then_, pageOp.
  destruct (parseInto ext content (page w)) as [el p]. reflexivity.
Qed.

(** The wrapper the parse creates, when the markup has a first child. *)
Lemma parseInto_child content x (p : Page U) :
  parseFirstChild ext content = Some x ->
  fst (parseInto ext content p) = Some (S (nextNode p))
  /\ Dom.innerHTML (Dom.node (dom (snd (parseInto ext content p))) (S (nextNode p)))
     = Dom.innerHTML x
  /\ console (snd (parseInto ext content p)) = console p.
Proof.
  intros Hx. unfold parseInto, alloc. rewrite Hx. simpl.
  split; [reflexivity|]. split; [|reflexivity].
  rewrite node_update_ne by lia.
  unfold Dom.node. rewrite lookup_insert_eq. reflexivity.
Qed.

Lemma createElement_strict content w el :
  supportShadowDOM ext = true ->
  fst (parseInto ext content (page w)) = Some el ->
  createElement ext content true w
  = (Fulfilled (Some el),
     set_page (isolated el (snd (parseInto ext content (page w)))) w).
Proof.
  intros Hyes Hel. unfold createElement, then_, pageOp. rewrite Hyes.
  destruct (parseInto ext content (page w)) as [el' p].
  simpl in Hel. subst el'. cbn [negb].
  unfold read, modify, openShadow, modify, resolve.
  destruct (attachShadow ext); reflexivity.
Qed.


End WrapperFacts.

Section WrapperExamples.

Import Sample.
Local Open Scope list_scope.


End WrapperExamples.

(** ** Instance identities *)

Section Identities.

Local Open Scope string_scope.

Lemma pretty_N_char_plain x : Ascii.eqb (pretty_N_char x) "_" = false.
Proof. unfold pretty_N_char. repeat case_match; reflexivity. Qed.

Lemma pretty_N_go_plain x :
  forall s, plain s = true -> plain (pretty_N_go x s) = true.
Proof.
  induction (N.lt_wf_0 x) as [x _ IH]; intros s Hs.
  assert (x = 0 \/ 0 < x)%N as [->|Hpos] by lia.
  - now rewrite pretty_N_go_0.
  - rewrite pretty_N_go_step by exact Hpos. apply IH.
    + now apply N.div_lt.
    + simpl. now rewrite pretty_N_char_plain.
Qed.

Lemma pretty_N_plain (x : N) : plain (pretty x) = true.
Proof.
  unfold pretty, pretty_N. destruct (decide (x = 0%N)); [reflexivity|].
  now apply pretty_N_go_plain.
Qed.

Lemma append_inv_head (s a b : string) : s ++ a = s ++ b -> a = b.
Proof.
  induction s as [|c s IH]; simpl; intros H; [exact H|].
  inversion H. now apply IH.
Qed.

(** Two strings without underscore, each followed by an underscore and a
    rest: the parts agree when the wholes do. *)
Lemma split_at_underscore (a c b d : string) :
  plain a = true -> plain c = true ->
  a ++ String "_" b = c ++ String "_" d -> a = c /\ b = d.
Proof.
  revert c. induction a as [|x a IH]; intros [|y c] Ha Hc H; simpl in *.
  - inversion H. now split.
  - inversion H; subst. simpl in Hc. discriminate.
  - inversion H; subst. simpl in Ha. discriminate.
  - inversion H; subst.
    apply andb_true_iff in Ha as [_ Ha]. apply andb_true_iff in Hc as [_ Hc].
    destruct (IH c Ha Hc) as [-> ->]; [assumption|]. now split.
Qed.

(** The identity determines the clock reading and the suffix. *)
Lemma appInstanceId_inj appName (t1 r1 t2 r2 : N) :
  appInstanceId appName t1 r1 = appInstanceId appName t2 r2 ->
  t1 = t2 /\ r1 = r2.
Proof.
  unfold appInstanceId. intros H. apply append_inv_head in H.
  simpl in H. inversion H as [H'].
  apply split_at_underscore in H' as [Ht Hr]; try apply pretty_N_plain.
  split; [exact (pretty_N_inj _ _ Ht) | exact (pretty_N_inj _ _ Hr)].
Qed.

End Identities.

Section LoadFacts.

Context {U : Type} (ext : Externals U).
Local Open Scope list_scope.
Implicit Types (w : World U).

Lemma yieldsId_then {A} id (p : M U A) (f : A -> M U (Loaded U)) :
  (forall a, yieldsId id (f a)) -> yieldsId id (then_ p f).
Proof.
  intros Hf w ld w' H. unfold then_ in H.
  destruct (p w) as [[a|e|] w1]; try discriminate. exact (Hf a w1 ld w' H).
Qed.

Lemma loadAppAs_id id app configuration lifeCycles :
  yieldsId id (loadAppAs ext id app configuration lifeCycles).
Proof.
  unfold loadAppAs. cbv zeta.
  repeat (apply yieldsId_then; intros).
  match goal with sb : (Global * _ * _)%type |- _ => destruct sb as [[? ?] ?] end.
  repeat (apply yieldsId_then; intros).
  match goal with found : option (Exports U) |- _ => destruct found end;
    intros w ld w' H; inversion H; subst; reflexivity.
Qed.

(** The identity of a load is made of the name of the application, the clock
    reading and the suffix drawn when [loadApp] starts. *)
Lemma loadApp_id app configuration lifeCycles w ld w' :
  loadApp ext app configuration lifeCycles w = (Fulfilled ld, w') ->
  l_appInstanceId ld = appInstanceId (name app) (clock (page w)) (suffixAt w).
Proof.
  intros H. unfold loadApp, then_ at 1 2, read, pageOp, random1000 in H.
  cbn [page set_page] in H.
  exact (loadAppAs_id _ app configuration lifeCycles _ ld w' H).
Qed.

(** C9, amended.  Two loads of the same descriptor get the same instance
    identity exactly when they read the same clock value and draw the same
    suffix; so their identities are distinct as soon as the clock readings or
    the suffixes differ, and only then. *)
Theorem loadApp_identities app cfg1 lc1 cfg2 lc2 w1 w2 ld1 ld2 w1' w2' :
  loadApp ext app cfg1 lc1 w1 = (Fulfilled ld1, w1') ->
  loadApp ext app cfg2 lc2 w2 = (Fulfilled ld2, w2') ->
  (l_appInstanceId ld1 = l_appInstanceId ld2
   <-> clock (page w1) = clock (page w2) /\ suffixAt w1 = suffixAt w2).
Proof.
  intros H1 H2.
  rewrite (loadApp_id _ _ _ _ _ _ H1), (loadApp_id _ _ _ _ _ _ H2).
  split.
  - apply appInstanceId_inj.
  - intros [-> ->]. reflexivity.
Qed.

End LoadFacts.

Section LoadExamples.

Import Sample.
Local Open Scope list_scope.

(** Two loads of [app0], the second started in the world the first one
    left: the clock has not advanced, the two draws are equal, and the two
    loads have the same identity. *)
Lemma loadApp_identity_collision :
  match loadApp (ext0 false) app0 cfg0 None world0 with
  | (Fulfilled ld1, w1) =>
      match loadApp (ext0 false) app0 cfg0 None w1 with
      | (Fulfilled ld2, _) =>
          l_appInstanceId ld1 = "shop_1600000000000_7"
          /\ l_appInstanceId ld2 = "shop_1600000000000_7"
      | _ => False
      end
  | _ => False
  end.
Proof. vm_compute. split; reflexivity. Qed.

Lemma loadApp_identities_witness :
  match loadApp (ext0 false) app0 cfg0 None world0,
        loadApp (ext0 false) app0 cfg0 None world0_later with
  | (Fulfilled ld1, _), (Fulfilled ld2, _) =>
      l_appInstanceId ld1 <> l_appInstanceId ld2
  | _, _ => False
  end.
Proof.
  destruct (loadApp (ext0 false) app0 cfg0 None world0)
    as [[ld1|e1|] w1] eqn:H1; try (vm_compute in H1; discriminate).
  destruct (loadApp (ext0 false) app0 cfg0 None world0_later)
    as [[ld2|e2|] w2] eqn:H2; try (vm_compute in H2; discriminate).
  intros Heq.
  apply (loadApp_identities (ext0 false) app0 cfg0 None cfg0 None
           world0 world0_later ld1 ld2 w1 w2 H1 H2) in Heq.
  destruct Heq as [Hclock _]. vm_compute in Hclock. discriminate.
Defined.

End LoadExamples.

(** ** [loadMicroApp] *)

Section MicroAppFacts.

Context {U : Type} (ext : Externals U).
Local Open Scope list_scope.
Implicit Types (w : World U).

(** C10, amended.  For a call of [loadMicroApp] whose container has a key (a
    truthy container that resolves to an element with an XPath): when the map
    holds a promise under the key, nothing is loaded or evaluated and the
    world is unchanged; the call settles as that promise did, with, when it
    fulfilled, the parcel config its getter makes for the container and
    [bootstrap] replaced by the resolving no-op.  When the map holds nothing
    under the key, [loadApp] runs once, its promise is stored under the key
    however it settles, and the parcel config is the one its getter makes. *)
Theorem memorizedLoadingFn_memoizes app configuration lifeCycles w key :
  cacheKey ext app (page w) = Some key ->
  (forall promise,
      appConfigPormiseGetterMap w !! key = Some promise ->
      memorizedLoadingFn ext app configuration lifeCycles w
      = (cachedConfigOf ext (container app) promise, w))
  /\
  (appConfigPormiseGetterMap w !! key = None ->
   forall o w1,
     loadApp ext app (default (frameworkConfiguration w) configuration)
       lifeCycles w = (o, w1) ->
     memorizedLoadingFn ext app configuration lifeCycles w
     = (configOf ext (container app) o,
        set_cache (<[key := o]> (appConfigPormiseGetterMap w1)) w1)).
Proof.
  intros Hkey. split.
  - intros promise Hhit. unfold memorizedLoadingFn, then_, read.
    rewrite Hkey. cbn [mbind option_bind]. rewrite Hhit.
    destruct promise; reflexivity.
  - intros Hmiss o w1 Hload. unfold memorizedLoadingFn, then_, read.
    rewrite Hkey. cbn [mbind option_bind]. rewrite Hmiss, Hload.
    destruct o; reflexivity.
Qed.

(** A container without a key: [loadApp] runs and the map is left alone. *)
Lemma memorizedLoadingFn_no_key app configuration lifeCycles w o w1 :
  cacheKey ext app (page w) = None ->
  loadApp ext app (default (frameworkConfiguration w) configuration)
    lifeCycles w = (o, w1) ->
  memorizedLoadingFn ext app configuration lifeCycles w
  = (configOf ext (container app) o, w1).
Proof.
  intros Hkey Hload. unfold memorizedLoadingFn, then_, read.
  rewrite Hkey. cbn [mbind option_bind]. rewrite Hload.
  destruct o; reflexivity.
Qed.

End MicroAppFacts.

Section MicroAppExamples.

Import Sample.
Local Open Scope list_scope.

(** A first call whose load fails, then a second call for the same
    application and container: no getter was ever stored under the key, and
    yet the second call loads nothing (the entry is imported once in all)
    and rejects as the first did. *)
Lemma memorizedLoadingFn_sticky_failure :
  exists w1 w2,
    memorizedLoadingFn extOffline app0 None None world0
    = (Rejected (Reason "Failed to fetch"), w1)
    /\ appConfigPormiseGetterMap w1 !! "shop-/html/body/div[1]"
       = Some (Rejected (Reason "Failed to fetch"))
    /\ trace w1 = [20]
    /\ memorizedLoadingFn extOffline app0 None None w1
       = (Rejected (Reason "Failed to fetch"), w2)
    /\ trace w2 = [20].
Proof.
  do 2 eexists. split; [vm_compute; reflexivity|].
  split; [vm_compute; reflexivity|].
  split; [vm_compute; reflexivity|].
  split; vm_compute; reflexivity.
Qed.

Lemma memorizedLoadingFn_memoizes_witness :
  memorizedLoadingFn (ext0 false) app0 None None world_cached
  = (Fulfilled (withBootstrap ResolvedBootstrap
                  (parcelConfigGetter (ext0 false)
                     (loaded0 0 (SingularFlag true) noLifeCycles)
                     (Some (Selector "#root")))),
     world_cached)
  /\ exists o w1,
      loadApp (ext0 false) app0 cfg0 None world0 = (o, w1)
      /\ memorizedLoadingFn (ext0 false) app0 None None world0
         = (configOf (ext0 false) (Some (Selector "#root")) o,
            set_cache (<["shop-/html/body/div[1]" := o]>
                         (appConfigPormiseGetterMap w1)) w1)
      /\ trace w1 = [20; 25; 21].
Proof.
  split.
  - destruct (memorizedLoadingFn_memoizes (ext0 false) app0 None None
                world_cached "shop-/html/body/div[1]" eq_refl) as [Hhit _].
    exact (Hhit (Fulfilled (loaded0 0 (SingularFlag true) noLifeCycles)) eq_refl).
  - destruct (loadApp (ext0 false) app0 cfg0 None world0) as [o w1] eqn:Hload.
    exists o, w1. split; [reflexivity|]. split.
    + apply (memorizedLoadingFn_memoizes (ext0 false) app0 None None world0
               "shop-/html/body/div[1]"); [reflexivity | reflexivity | exact Hload].
    + assert (Hw1 : w1 = snd (loadApp (ext0 false) app0 cfg0 None world0))
        by (rewrite Hload; reflexivity).
      rewrite Hw1. vm_compute. reflexivity.
Defined.

End MicroAppExamples.

(** ** The singular-mode sequencer *)

Section SingularFacts.

Context {U : Type}.
Local Open Scope list_scope.
Implicit Types (w : World U) (ld : Loaded U).

(** What the loader does with a deferred leaves the trace alone. *)
Lemma awaitDeferred_trace d w : trace (snd (@awaitDeferred U d w)) = trace w.
Proof.
  unfold awaitDeferred. destruct (deferreds w !! d) as [x|]; [|reflexivity].
  destruct (resolved x); reflexivity.
Qed.

Lemma issue_static ld b props w :
  l_singular ld = SingularFlag b ->
  singularIssueStep ld props w
  = (Fulfilled Undefined,
     if b then
       set_prev (Some (length (deferreds w)))
         (set_deferreds (deferreds w ++ [mkDeferred false (l_cell ld) []]) w)
     else w).
Proof.
  intros Hs. unfold singularIssueStep, then_. rewrite Hs.
  destruct b; reflexivity.
Qed.

Lemma release_static ld b props w :
  l_singular ld = SingularFlag b ->
  singularResolveStep ld props w
  = (Fulfilled Undefined,
     match b, prevAppUnmountedDeferred w with
     | true, Some d =>
         set_deferreds
           (alter (fun x => mkDeferred true (creator x) (resolvedBy x ++ [l_cell ld]))
              d (deferreds w)) w
     | _, _ => w
     end).
Proof.
  intros Hs. unfold singularResolveStep, then_, read. rewrite Hs. simpl.
  destruct b; [|reflexivity].
  destruct (prevAppUnmountedDeferred w); reflexivity.
Qed.

Lemma filter_resolved (ds : list Deferred) :
  Forall (fun x => resolved x = true /\ resolvedByCreator x) ds ->
  filter (fun x => resolved x = false) ds = [].
Proof.
  induction 1 as [|x ds [Hx _] _ IH]; [reflexivity|].
  rewrite filter_cons_False; [exact IH|]. rewrite Hx. discriminate.
Qed.

Lemma wait_static ld b props w :
  l_singular ld = SingularFlag b ->
  singularWaitStep ld props w
  = match b, prevAppUnmountedDeferred w with
    | true, Some d => awaitDeferred d w
    | _, _ => (Fulfilled Undefined, w)
    end.
Proof.
  intros Hs. unfold singularWaitStep, then_, read. rewrite Hs. simpl.
  destruct b; [|reflexivity].
  destruct (prevAppUnmountedDeferred w); reflexivity.
Qed.

Lemma idle_orderly w : idle w -> orderly w.
Proof.
  intros [H _]. split.
  - unfold unresolved. rewrite (filter_resolved _ H). simpl. lia.
  - eapply Forall_impl; [exact H|]. intros x [_ Hx]. exact Hx.
Qed.

(** The evaluation of a singular policy leaves the deferreds alone. *)
Lemma validate_tokens (v : option (Singular U)) (app : LoadableApp U) w :
  prevAppUnmountedDeferred (snd (validateSingularMode v app w))
  = prevAppUnmountedDeferred w
  /\ deferreds (snd (validateSingularMode v app w)) = deferreds w.
Proof.
  destruct v as [[b|f]|]; cbn [validateSingularMode]; try (split; reflexivity).
  unfold call. destruct (fn_body f app (page w)) as [o p]. split; reflexivity.
Qed.

Lemma tokenState_same h w w1 :
  prevAppUnmountedDeferred w1 = prevAppUnmountedDeferred w ->
  deferreds w1 = deferreds w ->
  tokenState h w -> tokenState h w1.
Proof.
  intros Hp Hd. destruct h as [c|]; cbn [tokenState].
  - intros (pre & H1 & H2 & H3). exists pre. rewrite Hp, Hd. auto.
  - intros [H1 H2]. split; rewrite ?Hp, Hd; assumption.
Qed.

Lemma tokenState_orderly h w : tokenState h w -> orderly w.
Proof.
  destruct h as [c|]; cbn [tokenState]; [|apply idle_orderly].
  intros (pre & Hd & _ & Hall). split.
  - unfold unresolved. rewrite Hd, filter_app, (filter_resolved _ Hall).
    cbn [app]. rewrite filter_cons_True by reflexivity. rewrite filter_nil.
    simpl. lia.
  - rewrite Hd. apply Forall_app. split.
    + eapply Forall_impl; [exact Hall|]. intros x [_ Hx]. exact Hx.
    + constructor; [|constructor]. intros caller [].
Qed.

(** The wait step, whatever the policy, leaves the deferreds alone. *)
Lemma wait_tokens ld props w :
  prevAppUnmountedDeferred (snd (singularWaitStep ld props w))
  = prevAppUnmountedDeferred w
  /\ deferreds (snd (singularWaitStep ld props w)) = deferreds w.
Proof.
  destruct (validate_tokens (Some (l_singular ld)) (l_app ld) w) as [Hp Hd].
  unfold singularWaitStep, then_, read.
  destruct (validateSingularMode (Some (l_singular ld)) (l_app ld) w)
    as [[sing|e|] w1]; cbn [snd] in *; try (split; assumption).
  destruct sing; [|cbn; split; assumption].
  destruct (prevAppUnmountedDeferred w1) as [d|] eqn:Hprev;
    [|cbn; split; congruence].
  unfold awaitDeferred.
  destruct (deferreds w1 !! d) as [x|] eqn:Hx; [|cbn; split; congruence].
  destruct (resolved x); cbn; split; congruence.
Qed.

(** The issuance step of a load whose policy is steady. *)
Lemma issue_steady ld b props w :
  steady ld b ->
  singularIssueStep ld props w
  = (Fulfilled Undefined,
     let w1 := snd (validateSingularMode (Some (l_singular ld)) (l_app ld) w) in
     if b then
       set_prev (Some (length (deferreds w1)))
         (set_deferreds (deferreds w1 ++ [mkDeferred false (l_cell ld) []]) w1)
     else w1).
Proof.
  intros Hs. pose proof (Hs w) as Hw. cbv zeta.
  unfold singularIssueStep, then_.
  destruct (validateSingularMode (Some (l_singular ld)) (l_app ld) w) as [o w1].
  cbn [fst] in Hw. subst o. cbn [snd]. destruct b; reflexivity.
Qed.

(** The resolution step, when the policy answers [true] and a deferred is
    installed: the deferred is resolved, whoever created it. *)
Lemma release_any ld props w w1 d :
  validateSingularMode (Some (l_singular ld)) (l_app ld) w = (Fulfilled true, w1) ->
  prevAppUnmountedDeferred w1 = Some d ->
  singularResolveStep ld props w
  = (Fulfilled Undefined,
     set_deferreds
       (alter (fun x => mkDeferred true (creator x) (resolvedBy x ++ [l_cell ld]))
          d (deferreds w1)) w1).
Proof.
  intros Hv Hprev. unfold singularResolveStep, then_ at 1. rewrite Hv.
  unfold then_, read. rewrite Hprev. reflexivity.
Qed.

(** The resolution step of a load whose policy is steady. *)
Lemma release_steady ld b props w :
  steady ld b ->
  singularResolveStep ld props w
  = (Fulfilled Undefined,
     let w1 := snd (validateSingularMode (Some (l_singular ld)) (l_app ld) w) in
     match b, prevAppUnmountedDeferred w1 with
     | true, Some d =>
         set_deferreds
           (alter (fun x => mkDeferred true (creator x) (resolvedBy x ++ [l_cell ld]))
              d (deferreds w1)) w1
     | _, _ => w1
     end).
Proof.
  intros Hs. pose proof (Hs w) as Hw. cbv zeta.
  unfold singularResolveStep, then_, read.
  destruct (validateSingularMode (Some (l_singular ld)) (l_app ld) w) as [o w1].
  cbn [fst] in Hw. subst o. cbn [snd]. destruct b; [|reflexivity].
  destruct (prevAppUnmountedDeferred w1); reflexivity.
Qed.

(** A step of a load that is not in singular mode leaves the deferreds
    alone. *)
Lemma off_tokens (s : TokenStep U) w :
  steady (loadOf s) false ->
  prevAppUnmountedDeferred (snd (tokenStep s w)) = prevAppUnmountedDeferred w
  /\ deferreds (snd (tokenStep s w)) = deferreds w.
Proof.
  destruct s as [ld|ld|ld]; cbn [loadOf tokenStep]; intros Hs.
  - apply wait_tokens.
  - rewrite (issue_steady ld false Undefined w Hs). apply validate_tokens.
  - rewrite (release_steady ld false Undefined w Hs). apply validate_tokens.
Qed.

(** A load in singular mode is mounted while none is: it holds the
    deferred. *)
Lemma issue_held ld w :
  steady ld true -> idle w ->
  heldBy (l_cell ld) (snd (singularIssueStep ld Undefined w)).
Proof.
  intros Hs [Hall _]. rewrite (issue_steady ld true Undefined w Hs).
  destruct (validate_tokens (Some (l_singular ld)) (l_app ld) w) as [_ Hd].
  cbn [snd]. cbv zeta.
  exists (deferreds (snd (validateSingularMode (Some (l_singular ld)) (l_app ld) w))).
  cbn [deferreds prevAppUnmountedDeferred set_prev set_deferreds].
  split; [reflexivity|]. split; [reflexivity|]. rewrite Hd. exact Hall.
Qed.

(** The load that holds the deferred is unmounted: no deferred is left
    unresolved. *)
Lemma release_idle ld w :
  steady ld true -> heldBy (l_cell ld) w ->
  idle (snd (singularResolveStep ld Undefined w)).
Proof.
  intros Hs (pre & Hd & Hprev & Hall).
  rewrite (release_steady ld true Undefined w Hs).
  destruct (validate_tokens (Some (l_singular ld)) (l_app ld) w) as [Hp1 Hd1].
  cbn [snd]. cbv zeta. rewrite Hp1, Hprev, Hd1, Hd.
  rewrite <- (Nat.add_0_r (length pre)), alter_app_r. cbn [alter list_alter].
  split; cbn [deferreds prevAppUnmountedDeferred set_deferreds].
  - apply Forall_app. split; [exact Hall|].
    constructor; [|constructor]. cbn. split; [reflexivity|].
    intros caller [Hc|[]]. now symmetry.
  - intros d Hdd. rewrite Hp1, Hprev in Hdd. inversion Hdd; subst.
    rewrite length_app. cbn. lia.
Qed.

(** Along a schedule in which mounts and unmounts do not overlap, every
    world is orderly. *)
Lemma sequenced_orderly h (steps : list (TokenStep U)) :
  sequenced h steps ->
  forall w, tokenState h w -> forall n, orderly (after (take n steps) w).
Proof.
  induction 1 as [h | h ld rest _ IH | h s rest Hoff _ IH
                  | ld rest Hon _ IH | ld rest Hon _ IH];
    intros w Hw n.
  - rewrite take_nil. exact (tokenState_orderly h w Hw).
  - destruct n as [|n]; [exact (tokenState_orderly h w Hw)|].
    rewrite firstn_cons.
    change (orderly (after (take n rest) (snd (tokenStep (Wait ld) w)))).
    apply IH. destruct (wait_tokens ld Undefined w) as [Hp Hd].
    exact (tokenState_same h w _ Hp Hd Hw).
  - destruct n as [|n]; [exact (tokenState_orderly h w Hw)|].
    rewrite firstn_cons.
    change (orderly (after (take n rest) (snd (tokenStep s w)))).
    apply IH. destruct (off_tokens s w Hoff) as [Hp Hd].
    exact (tokenState_same h w _ Hp Hd Hw).
  - destruct n as [|n]; [exact (tokenState_orderly None w Hw)|].
    rewrite firstn_cons.
    change (orderly (after (take n rest) (snd (tokenStep (Issue ld) w)))).
    apply IH. exact (issue_held ld w Hon Hw).
  - destruct n as [|n]; [exact (tokenState_orderly _ w Hw)|].
    rewrite firstn_cons.
    change (orderly (after (take n rest) (snd (tokenStep (Release ld) w)))).
    apply IH. exact (release_idle ld w Hon Hw).
Qed.

(** Loads with a steady policy that take turns: mounts and unmounts do not
    overlap. *)
Lemma turns_sequenced (lds : list (Loaded U)) :
  Forall steadyLoad lds -> sequenced None (turns lds).
Proof.
  induction 1 as [|ld lds [b Hs] _ IH]; [constructor|].
  cbn [turns]. apply sequenced_wait. destruct b.
  - apply sequenced_issue; [exact Hs|].
    apply sequenced_release; [exact Hs | exact IH].
  - apply sequenced_off; [exact Hs|]. apply sequenced_off; [exact Hs | exact IH].
Qed.

(** In an idle world the wait step of a load with a steady policy passes. *)
Lemma wait_steady_idle ld b w :
  steady ld b -> idle w ->
  fst (singularWaitStep ld Undefined w) = Fulfilled Undefined.
Proof.
  intros Hs [Hall Hprev]. pose proof (Hs w) as Hw.
  destruct (validate_tokens (Some (l_singular ld)) (l_app ld) w) as [Hp Hd].
  unfold singularWaitStep, then_, read.
  destruct (validateSingularMode (Some (l_singular ld)) (l_app ld) w) as [o w1].
  cbn [fst snd] in *. subst o. destruct b; [|reflexivity].
  destruct (prevAppUnmountedDeferred w1) as [d|]; [|reflexivity].
  symmetry in Hp.
  destruct (lookup_lt_is_Some_2 (deferreds w) d (Hprev d Hp)) as [x Hx].
  unfold awaitDeferred. rewrite Hd, Hx.
  destruct (Forall_lookup_1 _ _ _ _ Hall Hx) as [-> _]. reflexivity.
Qed.

Lemma runSchedule_cons (s : TokenStep U) rest w :
  fst (tokenStep s w) = Fulfilled Undefined ->
  runSchedule (s :: rest) w = runSchedule rest (snd (tokenStep s w)).
Proof.
  intros H. cbn [runSchedule]. unfold then_.
  destruct (tokenStep s w) as [o w1]. cbn [fst] in H. subst o. reflexivity.
Qed.

(** A schedule of turns runs to its end. *)
Lemma turns_run (lds : list (Loaded U)) :
  Forall steadyLoad lds ->
  forall n w, idle w ->
    runSchedule (take n (turns lds)) w
    = (Fulfilled Undefined, after (take n (turns lds)) w).
Proof.
  induction 1 as [|ld lds [b Hs] _ IH]; intros n w Hidle.
  - cbn [turns]. rewrite take_nil. reflexivity.
  - cbn [turns].
    pose proof (wait_steady_idle ld b w Hs Hidle) as Hwait.
    destruct (wait_tokens ld Undefined w) as [Hp1 Hd1].
    pose proof (tokenState_same None w _ Hp1 Hd1 Hidle) as Hidle1.
    set (w1 := snd (singularWaitStep ld Undefined w)) in *.
    assert (Hissue : fst (singularIssueStep ld Undefined w1) = Fulfilled Undefined)
      by (rewrite (issue_steady ld b Undefined w1 Hs); reflexivity).
    set (w2 := snd (singularIssueStep ld Undefined w1)) in *.
    assert (Hrelease : fst (singularResolveStep ld Undefined w2) = Fulfilled Undefined)
      by (rewrite (release_steady ld b Undefined w2 Hs); reflexivity).
    assert (Hidle3 : idle (snd (singularResolveStep ld Undefined w2))).
    { destruct b.
      - apply release_idle; [exact Hs|]. apply issue_held; assumption.
      - destruct (off_tokens (Release ld) w2 Hs) as [Hp3 Hd3].
        destruct (off_tokens (Issue ld) w1 Hs) as [Hp2 Hd2].
        apply (tokenState_same None w2 _ Hp3 Hd3).
        exact (tokenState_same None w1 _ Hp2 Hd2 Hidle1). }
    destruct n as [|[|[|n]]]; rewrite ?firstn_cons, ?firstn_O.
    + reflexivity.
    + rewrite runSchedule_cons by exact Hwait. reflexivity.
    + rewrite runSchedule_cons by exact Hwait.
      rewrite runSchedule_cons by exact Hissue. reflexivity.
    + rewrite runSchedule_cons by exact Hwait.
      rewrite runSchedule_cons by exact Hissue.
      rewrite runSchedule_cons by exact Hrelease.
      exact (IH n _ Hidle3).
Qed.

(** C1, amended.  The last step of the unmount array resolves whichever
    deferred is installed whenever the singular policy of the load evaluates
    to [true] and a deferred is installed, whoever created it: the step makes
    no test of ownership.  Take a schedule of wait, issuance and resolution
    steps in which every issuance or resolution step belongs to a load whose
    policy gives the same answer at every evaluation; a load whose policy
    answers [true] counts as mounted from its issuance step to its
    resolution step.  If the schedule starts when every deferred made so far
    has been resolved, and by its creator alone, and the mounts and unmounts
    do not overlap in it (a load whose policy answers [true] issues only
    while none is mounted and resolves only while it is the one mounted; wait
    steps, and the steps of a load whose policy answers [false], come
    anywhere), then at every moment at most one deferred is unresolved and
    every deferred was resolved by no load other than the one that created
    it.  When loads whose policy gives the same answer at every evaluation
    take turns, each running its wait, issuance and resolution steps before
    the next one's wait step, the schedule is of that kind and no step of it
    blocks. *)
Theorem singular_token_turns :
  (forall (ld : Loaded U) props w w1 d,
      validateSingularMode (Some (l_singular ld)) (l_app ld) w
      = (Fulfilled true, w1) ->
      prevAppUnmountedDeferred w1 = Some d ->
      singularResolveStep ld props w
      = (Fulfilled Undefined,
         set_deferreds
           (alter (fun x => mkDeferred true (creator x) (resolvedBy x ++ [l_cell ld]))
              d (deferreds w1)) w1))
  /\
  (forall (steps : list (TokenStep U)) n w,
      sequenced None steps ->
      idle w ->
      length (unresolved (after (take n steps) w)) <= 1
      /\ Forall resolvedByCreator (deferreds (after (take n steps) w)))
  /\
  (forall (lds : list (Loaded U)) n w,
      Forall steadyLoad lds ->
      idle w ->
      sequenced None (turns lds)
      /\ runSchedule (take n (turns lds)) w
         = (Fulfilled Undefined, after (take n (turns lds)) w)).
Proof.
  split; [|split].
  - intros ld props w w1 d Hv Hprev. exact (release_any ld props w w1 d Hv Hprev).
  - intros steps n w Hseq Hidle.
    exact (sequenced_orderly None steps Hseq w Hidle n).
  - intros lds n w Hsteady Hidle. split.
    + exact (turns_sequenced lds Hsteady).
    + exact (turns_run lds Hsteady n w Hidle).
Qed.

(** C2, amended.  Each step that needs the singular decision evaluates the
    policy anew.  With a static flag every evaluation yields the flag and
    calls nothing.  With a predicate, an evaluation is a call of the
    predicate, and the gate of [loadApp], the wait step and the issuance step
    of the mount array and the last step of the unmount array each call it
    exactly once, whatever it answers. *)
Theorem singular_policy_per_step ld props w :
  match l_singular ld with
  | SingularFlag b =>
      validateSingularMode (Some (l_singular ld)) (l_app ld) w = (Fulfilled b, w)
      /\ trace (snd (singularGate (l_singular ld) (l_app ld) w)) = trace w
      /\ trace (snd (singularWaitStep ld props w)) = trace w
      /\ trace (snd (singularIssueStep ld props w)) = trace w
      /\ trace (snd (singularResolveStep ld props w)) = trace w
  | SingularFn f =>
      validateSingularMode (Some (l_singular ld)) (l_app ld) w
      = call f (l_app ld) w
      /\ trace (snd (singularGate (l_singular ld) (l_app ld) w))
         = trace w ++ [fn_id f]
      /\ trace (snd (singularWaitStep ld props w)) = trace w ++ [fn_id f]
      /\ trace (snd (singularIssueStep ld props w)) = trace w ++ [fn_id f]
      /\ trace (snd (singularResolveStep ld props w)) = trace w ++ [fn_id f]
  end.
Proof.
  unfold singularGate, singularWaitStep, singularIssueStep, singularResolveStep.
  destruct (l_singular ld) as [b|f]; (split; [reflexivity|]).
  - unfold then_, read. simpl. repeat split.
    + destruct b; [|reflexivity].
      destruct (prevAppUnmountedDeferred w); [apply awaitDeferred_trace | reflexivity].
    + destruct b; [|reflexivity].
      destruct (prevAppUnmountedDeferred w); [apply awaitDeferred_trace | reflexivity].
    + destruct b; reflexivity.
    + destruct b; [|reflexivity].
      destruct (prevAppUnmountedDeferred w); reflexivity.
  - pose proof (call_trace f (l_app ld) w) as Hcall.
    unfold then_, read. simpl.
    destruct (call f (l_app ld) w) as [[sing|e|] w1]; simpl in Hcall;
      rewrite <- Hcall; repeat split; try reflexivity.
    + destruct sing; [|reflexivity].
      destruct (prevAppUnmountedDeferred w1); [apply awaitDeferred_trace | reflexivity].
    + destruct sing; [|reflexivity].
      destruct (prevAppUnmountedDeferred w1); [apply awaitDeferred_trace | reflexivity].
    + destruct sing; reflexivity.
    + destruct sing; [|reflexivity].
      destruct (prevAppUnmountedDeferred w1); reflexivity.
Qed.

End SingularFacts.

Section SingularExamples.

Import Sample SampleApis.
Local Open Scope list_scope.
Local Open Scope promise_scope.

(** Two singular loads mounted side by side: both pass the wait step while
    no deferred exists, both then issue one, and the unmount of the first
    resolves the deferred of the second.  Two deferreds were unresolved at
    once, and the one the first load created is never resolved.
    Then a load that is unmounted without having been mounted, after another
    was mounted and unmounted: it resolves the deferred of the other once
    more.  Last, two loads that take turns under a predicate that answers
    [true] at the issuance steps only: the first is unmounted without
    resolving its deferred, and the second issues another. *)
Lemma singular_token_counterexample :
  (exists w4 w5,
     (tokenStep (Wait loadA) ;; tokenStep (Wait loadB) ;;
      tokenStep (Issue loadA) ;; tokenStep (Issue loadB)) world2
     = (Fulfilled Undefined, w4)
     /\ unresolved w4 = [mkDeferred false 0 []; mkDeferred false 1 []]
     /\ tokenStep (Release loadA) w4 = (Fulfilled Undefined, w5)
     /\ deferreds w5 = [mkDeferred false 0 []; mkDeferred true 1 [0]])
  /\ (exists w5,
        runSchedule [Wait loadA; Issue loadA; Release loadA;
                     Wait loadB; Release loadB] world2
        = (Fulfilled Undefined, w5)
        /\ deferreds w5 = [mkDeferred true 0 [0; 1]])
  /\ (exists w5,
        runSchedule (take 5 (turns [loadE; loadF])) world2
        = (Fulfilled Undefined, w5)
        /\ unresolved w5 = [mkDeferred false 0 []; mkDeferred false 1 []]).
Proof.
  split; [|split].
  - do 2 eexists. split; [vm_compute; reflexivity|].
    split; [vm_compute; reflexivity|].
    split; vm_compute; reflexivity.
  - eexists. split; vm_compute; reflexivity.
  - eexists. split; vm_compute; reflexivity.
Qed.

(** Two loads in singular mode, the second of which waits while the first
    is mounted and is mounted once the first is unmounted; two loads that
    take turns; and the unmount of one load resolving the deferred that the
    mount of another has issued. *)
Lemma singular_token_turns_witness :
  (length (unresolved
             (after (take 5 [Wait loadA; Issue loadA; Wait loadB;
                             Release loadA; Issue loadB; Release loadB]) world2)) <= 1
   /\ Forall resolvedByCreator
        (deferreds
           (after (take 5 [Wait loadA; Issue loadA; Wait loadB;
                           Release loadA; Issue loadB; Release loadB]) world2)))
  /\ (sequenced None (turns [loadA; loadB])
      /\ runSchedule (take 5 (turns [loadA; loadB])) world2
         = (Fulfilled Undefined, after (take 5 (turns [loadA; loadB])) world2))
  /\ singularResolveStep loadB Undefined (snd (singularIssueStep loadA Undefined world2))
     = (Fulfilled Undefined,
        set_deferreds [mkDeferred true 0 [1]]
          (snd (singularIssueStep loadA Undefined world2))).
Proof.
  destruct (@singular_token_turns U) as (Hany & Hseq & Hturns).
  assert (Hidle : idle world2) by (split; [constructor | discriminate]).
  assert (HA : steady loadA true) by (intros w; reflexivity).
  assert (HB : steady loadB true) by (intros w; reflexivity).
  split; [|split].
  - apply Hseq; [|exact Hidle].
    apply sequenced_wait, sequenced_issue; [exact HA|].
    apply sequenced_wait, (sequenced_release loadA); [exact HA|].
    apply sequenced_issue; [exact HB|].
    apply (sequenced_release loadB); [exact HB|]. apply sequenced_nil.
  - apply Hturns; [|exact Hidle].
    constructor; [exists true; exact HA|].
    constructor; [exists true; exact HB|]. constructor.
  - exact (Hany loadB Undefined (snd (singularIssueStep loadA Undefined world2))
             _ 0 eq_refl eq_refl).
Defined.

(** One mount of a load whose policy is an impure predicate: the wait step
    and the issuance step each call the predicate, and get different
    answers. *)
Lemma singular_policy_counterexample :
  exists w1 w2,
    singularWaitStep loadD Undefined world2 = (Fulfilled Undefined, w1)
    /\ singularIssueStep loadD Undefined w1 = (Fulfilled Undefined, w2)
    /\ trace w2 = [40; 40]
    /\ fst (validateSingularMode (Some (l_singular loadD)) app0 world2)
       = Fulfilled true
    /\ fst (validateSingularMode (Some (l_singular loadD)) app0 w1)
       = Fulfilled false.
Proof.
  do 2 eexists. split; [vm_compute; reflexivity|].
  split; [vm_compute; reflexivity|].
  split; [vm_compute; reflexivity|].
  split; vm_compute; reflexivity.
Qed.

End SingularExamples.

(** ** The mount array under the Switching Engine *)

Section MountFacts.

Context {U : Type} (ext : Externals U).
Local Open Scope list_scope.
Implicit Types (w : World U) (ld : Loaded U).

Lemma runSteps_app (pre post : list (value -> M U value)) props :
  forall w,
    runSteps (pre ++ post) props w =
    match runSteps pre props w with
    | (Fulfilled _, w1) => runSteps post props w1
    | (Rejected e, w1) => (Rejected e, w1)
    | (Pending, w1) => (Pending, w1)
    end.
Proof.
  induction pre as [|s pre IH]; intros w; [reflexivity|].
  simpl. unfold then_. destruct (s props w) as [[v|e|] w1]; try reflexivity.
  apply IH.
Qed.

(** A step that rejects after the steps before it have fulfilled. *)
Lemma runSteps_abort (pre post : list (value -> M U value)) s props w v w1 e w2 :
  runSteps pre props w = (Fulfilled v, w1) ->
  s props w1 = (Rejected e, w2) ->
  runSteps (pre ++ s :: post) props w = (Rejected e, w2).
Proof.
  intros Hpre Hs. rewrite runSteps_app, Hpre. simpl. unfold then_.
  rewrite Hs. reflexivity.
Qed.

(** C3.  Under a runner that calls the steps of the mount array in order:
    when the steps before [s] have fulfilled and [s] rejects, the run rejects
    with the value [s] rejected with, in the world [s] left, so that no later
    step has run and what the earlier steps did stays done.  In particular,
    when a [beforeMount] hook rejects after the four steps before the hook
    chain and the hooks before it have fulfilled, the run rejects with that
    hook's value and the last function called is that hook: neither the
    mount callback, nor the [mounted] render, the [afterMount] hooks or the
    issuance of the singular token has run. *)
Theorem mount_rejection_aborts ld remount props :
  (forall pre s post w v w1 e w2,
      mountSteps ext ld remount = pre ++ s :: post ->
      runSteps pre props w = (Fulfilled v, w1) ->
      s props w1 = (Rejected e, w2) ->
      runSteps (mountSteps ext ld remount) props w = (Rejected e, w2))
  /\
  (forall hp h hpost w v w1 v' w1' e w2,
      beforeMount (l_hooks ld) = hp ++ h :: hpost ->
      runSteps (take 4 (mountSteps ext ld remount)) props w = (Fulfilled v, w1) ->
      execHooksChain hp (l_app ld) (l_global ld) w1 = (Fulfilled v', w1') ->
      call h (l_app ld, l_global ld) w1' = (Rejected e, w2) ->
      runSteps (mountSteps ext ld remount) props w = (Rejected e, w2)
      /\ trace w2 = trace w1 ++ map fn_id hp ++ [fn_id h]).
Proof.
  split.
  - intros pre s post w v w1 e w2 Hsplit Hpre Hs. rewrite Hsplit.
    exact (runSteps_abort pre post s props w v w1 e w2 Hpre Hs).
  - intros hp h hpost w v w1 v' w1' e w2 Hhooks Hpre Hhp Hh.
    destruct (execHooksChain_abort (l_app ld) (l_global ld) hp h hpost
                w1 v' w1' e w2 Hhp Hh) as [Hchain Htrace].
    split; [|exact Htrace].
    change (mountSteps ext ld remount)
      with (take 4 (mountSteps ext ld remount)
            ++ beforeMountStep ld :: drop 5 (mountSteps ext ld remount)).
    apply (runSteps_abort _ _ _ props w v w1 e w2 Hpre).
    unfold beforeMountStep. rewrite Hhooks. exact Hchain.
Qed.

End MountFacts.

Section MountExamples.

Import Sample.
Local Open Scope list_scope.

Lemma mount_rejection_aborts_witness :
  exists w2,
    runSteps (mountSteps (ext0 false) loadC None) Undefined world2
    = (Rejected (Reason "boom"), w2)
    /\ trace w2 = [26; 50; 51]
    /\ user (page w2) = [50].
Proof.
  destruct (mount_rejection_aborts (ext0 false) loadC None Undefined)
    as [_ Hhook].
  edestruct (Hhook [noting 50] (failing 51 "boom") [noting 52] world2)
    as [Hrun Htrace].
  - reflexivity.
  - vm_compute. reflexivity.
  - vm_compute. reflexivity.
  - vm_compute. reflexivity.
  - eexists. split; [exact Hrun|]. split; [exact Htrace | reflexivity].
Defined.

End MountExamples.

(** * Further properties of the loader *)

Section ChainComposition.

Context {U : Type}.
Local Open Scope list_scope.
Implicit Types (w : World U) (app : LoadableApp U) (g : Global).

(** X1.  The chain of two lists of hooks put end to end is the chain of the
    first followed, once it has fulfilled, by the chain of the second: a
    hook of the first list that rejects or never settles keeps every hook of
    the second from running.  This is how the hooks of the add-ons and of the
    caller, which [loadApp] concatenates in that order, run. *)
Theorem execHooksChain_merged (a b : FrameworkLifeCycles U) app g w :
  execHooksChain (beforeMount (mergeLifeCycles a b)) app g w =
  match execHooksChain (beforeMount a) app g w with
  | (Fulfilled v, w1) =>
      match beforeMount b with
      | [] => (Fulfilled v, w1)
      | _ :: _ => execHooksChain (beforeMount b) app g w1
      end
  | (Rejected e, w1) => (Rejected e, w1)
  | (Pending, w1) => (Pending, w1)
  end.
Proof.
  cbn [mergeLifeCycles beforeMount].
  generalize (beforeMount a) (beforeMount b). intros l1 l2. revert w.
  induction l1 as [|h l1 IH]; intros w.
  - cbn [List.app]. destruct l2; reflexivity.
  - change ((h :: l1) ++ l2) with (h :: (l1 ++ l2)).
    rewrite !execHooksChain_cons.
    destruct (call h (app, g) w) as [[v|e|] w1]; try reflexivity.
    destruct l1 as [|h' l1'].
    + cbn [List.app]. destruct l2; reflexivity.
    + change ((h' :: l1') ++ l2) with (h' :: (l1' ++ l2)).
      change (h' :: (l1' ++ l2)) with ((h' :: l1') ++ l2). apply IH.
Qed.

End ChainComposition.

Section WrapperGetterFacts.

Context {U : Type} (ext : Externals U).
Local Open Scope list_scope.
Implicit Types (w : World U) (ld : Loaded U).

(** X2.  An application loaded with a legacy render function and with strict or
    scoped style isolation: [loadApp] accepts it, and it is its mount and
    unmount callbacks that fail, with the error of the conflict, before the
    application's own [mount] or [unmount] is called. *)
Theorem legacy_isolation_conflict ld f props w :
  render (l_app ld) = Some f ->
  l_strictStyleIsolation ld = true \/ l_enableScopedCSS ld = true ->
  exists msg,
    appMountStep ext ld props w = (Rejected (Error msg), w)
    /\ appUnmountStep ext ld props w = (Rejected (Error msg), w)
    /\ msg = if l_strictStyleIsolation ld
             then "[qiankun]: strictStyleIsolation can not be used with legacy render!"%string
             else "[qiankun]: experimentalStyleIsolation can not be used with legacy render!"%string.
Proof.
  intros Hf Hiso.
  exists (if l_strictStyleIsolation ld
          then "[qiankun]: strictStyleIsolation can not be used with legacy render!"%string
          else "[qiankun]: experimentalStyleIsolation can not be used with legacy render!"%string).
  unfold appMountStep, appUnmountStep, appWrapperGetter, getAppWrapperGetter, then_.
  rewrite Hf. cbn [isSome].
  destruct (l_strictStyleIsolation ld).
  - repeat split; reflexivity.
  - destruct Hiso as [Hs|Hc]; [discriminate|]. rewrite Hc.
    repeat split; reflexivity.
Qed.

(** X3.  A managed application whose wrapper element has been released (or was
    never created): its mount and unmount callbacks fail with the error that
    names the application and the instance, and the application's own
    [mount] or [unmount] is not called. *)
Theorem released_wrapper_fails ld props w :
  render (l_app ld) = None ->
  mjoin (cells w !! l_cell ld) = None ->
  appMountStep ext ld props w
  = (Rejected (Error (wrapperMissing (name (l_app ld)) (l_appInstanceId ld))), w)
  /\ appUnmountStep ext ld props w
     = (Rejected (Error (wrapperMissing (name (l_app ld)) (l_appInstanceId ld))), w).
Proof.
  intros Hr Hcell.
  unfold appMountStep, appUnmountStep, appWrapperGetter, getAppWrapperGetter,
    then_, readWrapper, read.
  rewrite Hr. cbn [isSome]. cbv beta. rewrite Hcell. split; reflexivity.
Qed.

(** The wrapper getter of a managed application with scoped CSS, in one
    equation. *)
Lemma scoped_getter appName appInstanceId el w :
  getAppWrapperGetter ext appName appInstanceId false false true
    (resolve (Some el)) w
  = (Fulfilled (Some (LightRoot el)),
     match nonEmpty (Dom.attributes (Dom.node (dom (page w)) el)
                       !! QiankunCSSRewriteAttr ext) with
     | Some _ => w
     | None =>
         set_page (set_dom (Dom.update el
            (Dom.set_attribute (QiankunCSSRewriteAttr ext) appName)
            (dom (page w))) (page w)) w
     end).
Proof.
  cbv [getAppWrapperGetter then_ read resolve modify assertElementExist].
  destruct (nonEmpty (Dom.attributes (Dom.node (dom (page w)) el)
                        !! QiankunCSSRewriteAttr ext)); reflexivity.
Qed.

(** X4.  The wrapper getter of a managed application with scoped CSS: it returns
    the wrapper element and leaves on it a rewrite attribute that holds the
    value it already had, or the name of the application if it had none; a
    second call changes nothing. *)
Theorem scoped_attribute_kept appName appInstanceId el w :
  appName <> ""%string ->
  exists w',
    getAppWrapperGetter ext appName appInstanceId false false true
      (resolve (Some el)) w = (Fulfilled (Some (LightRoot el)), w')
    /\ Dom.attributes (Dom.node (dom (page w')) el) !! QiankunCSSRewriteAttr ext
       = Some (rewriteAttrAfter
                 (Dom.attributes (Dom.node (dom (page w)) el)
                    !! QiankunCSSRewriteAttr ext) appName)
    /\ getAppWrapperGetter ext appName appInstanceId false false true
         (resolve (Some el)) w' = (Fulfilled (Some (LightRoot el)), w').
Proof.
  intros Hname.
  assert (Hne : String.eqb appName "" = false) by now apply String.eqb_neq.
  eexists. split; [apply scoped_getter|].
  rewrite scoped_getter.
  destruct (Dom.attributes (Dom.node (dom (page w)) el) !! QiankunCSSRewriteAttr ext)
    as [v|] eqn:Hold; cbn [nonEmpty rewriteAttrAfter].
  - destruct (String.eqb v "") eqn:Hv.
    + cbn [page set_page dom set_dom]. rewrite node_update_eq.
      cbn [Dom.attributes Dom.set_attribute]. rewrite lookup_insert_eq.
      cbn [nonEmpty]. rewrite Hne. split; reflexivity.
    + rewrite Hold. cbn [nonEmpty]. rewrite Hv. split; reflexivity.
  - cbn [page set_page dom set_dom]. rewrite node_update_eq.
    cbn [Dom.attributes Dom.set_attribute]. rewrite lookup_insert_eq.
    cbn [nonEmpty]. rewrite Hne. split; reflexivity.
Qed.

End WrapperGetterFacts.

Section IsolationFacts.

Context {U : Type} (ext : Externals U).
Local Open Scope list_scope.
Implicit Types (w : World U).

Lemma createElement_unsupported content w :
  supportShadowDOM ext = false ->
  createElement ext content true w
  = (Fulfilled (fst (parseInto ext content (page w))),
     set_page (warn shadowWarning (snd (parseInto ext content (page w)))) w).
Proof.
  intros Hno. unfold createElement, then_, pageOp. rewrite Hno.
  destruct (parseInto ext content (page w)) as [el p]. reflexivity.
Qed.

Lemma parseInto_shadow content x (p : Page U) :
  parseFirstChild ext content = Some x ->
  Dom.shadowRoot (Dom.node (dom (snd (parseInto ext content p))) (S (nextNode p)))
  = Dom.shadowRoot x.
Proof.
  intros Hx. unfold parseInto, alloc. rewrite Hx. simpl.
  rewrite node_update_ne by lia.
  unfold Dom.node. rewrite lookup_insert_eq. reflexivity.
Qed.

(** The wrapper getter under strict isolation, for a wrapper that exists. *)
Lemma strict_getter appName appInstanceId el w :
  getAppWrapperGetter ext appName appInstanceId false true false
    (resolve (Some el)) w
  = (Fulfilled (match Dom.shadowRoot (Dom.node (dom (page w)) el) with
                | Some _ => Some (ShadowRootOf el)
                | None => None
                end), w).
Proof. reflexivity. Qed.

(** X5.  Strict style isolation from end to end.  On a host without shadow DOM,
    the wrapper built by [createElement] has no shadow root, and the wrapper
    getter, which returns [element.shadowRoot], hands the application no
    container at all ([null]).  On a host with shadow DOM the application is
    handed the shadow root of the wrapper. *)
Theorem strict_isolation_container content x appName appInstanceId w :
  parseFirstChild ext content = Some x ->
  Dom.shadowRoot x = None ->
  exists el w',
    then_ (createElement ext content true)
      (fun e => getAppWrapperGetter ext appName appInstanceId false true false
                  (resolve e)) w
    = (Fulfilled (if supportShadowDOM ext then Some (ShadowRootOf el) else None), w')
    /\ createElement ext content true w = (Fulfilled (Some el), w').
Proof.
  intros Hx Hnone.
  destruct (parseInto_child ext content x (page w) Hx) as (Hel & _ & _).
  pose proof (parseInto_shadow content x (page w) Hx) as Hsh.
  exists (S (nextNode (page w))).
  destruct (supportShadowDOM ext) eqn:Hs.
  - eexists. unfold then_ at 1.
    rewrite (createElement_strict ext content w _ Hs Hel).
    split; [|reflexivity]. rewrite strict_getter.
    unfold isolated. cbn [page set_page dom set_dom].
    rewrite node_update_eq. reflexivity.
  - eexists. unfold then_ at 1.
    rewrite (createElement_unsupported content w Hs), Hel.
    split; [|reflexivity]. rewrite strict_getter.
    cbn [page set_page dom warn]. rewrite Hsh, Hnone. reflexivity.
Qed.

(** Whatever [getLifecyclesFromExports] returns has passed the validation. *)
Lemma getLifecyclesFromExports_sound scriptExports appName global w r w' :
  getLifecyclesFromExports ext scriptExports appName global w = (Fulfilled r, w') ->
  validateExportLifecycle ext r = true.
Proof.
  unfold getLifecyclesFromExports.
  destruct (validateExportLifecycle ext scriptExports) eqn:Hv.
  - intros H. inversion H; subst. exact Hv.
  - unfold then_, read, modify, resolve, throw.
    destruct (development ext); cbv beta iota; cbn [page set_page];
      match goal with
      | |- context [validateExportLifecycle ext (globalVariable ?a ?b ?c ?d)] =>
          destruct (validateExportLifecycle ext (globalVariable a b c d)) eqn:Hg
      end; intros H; inversion H; subst; exact Hg.
Qed.

(** X6.  [getLifecyclesFromExports]: when the exports of the script are valid
    they are returned and nothing else happens; whatever it returns is valid;
    and the only error it raises is the one that asks for the lifecycle
    exports. *)
Theorem getLifecyclesFromExports_valid scriptExports appName global w :
  (validateExportLifecycle ext scriptExports = true ->
   getLifecyclesFromExports ext scriptExports appName global w
   = (Fulfilled scriptExports, w))
  /\ (forall r w',
        getLifecyclesFromExports ext scriptExports appName global w
        = (Fulfilled r, w') ->
        validateExportLifecycle ext r = true)
  /\ (forall e w',
        getLifecyclesFromExports ext scriptExports appName global w
        = (Rejected e, w') ->
        e = Error ("[qiankun] You need to export lifecycle functions in "
                     ++ appName ++ " entry")%string)
  /\ fst (getLifecyclesFromExports ext scriptExports appName global w) <> Pending.
Proof.
  unfold getLifecyclesFromExports.
  destruct (validateExportLifecycle ext scriptExports) eqn:Hv.
  - repeat split; try discriminate.
    + intros r w' H. inversion H; subst. exact Hv.
  - unfold then_, read, modify, resolve, throw.
    destruct (development ext); cbv beta iota; cbn [page set_page].
    + match goal with
      | |- context [validateExportLifecycle ext (globalVariable ?a ?b ?c ?d)] =>
          destruct (validateExportLifecycle ext (globalVariable a b c d)) eqn:Hg
      end; repeat split; try discriminate.
      * intros r w' H. inversion H; subst. exact Hg.
      * intros e w' H. inversion H; subst. reflexivity.
    + match goal with
      | |- context [validateExportLifecycle ext (globalVariable ?a ?b ?c ?d)] =>
          destruct (validateExportLifecycle ext (globalVariable a b c d)) eqn:Hg
      end; repeat split; try discriminate.
      * intros r w' H. inversion H; subst. exact Hg.
      * intros e w' H. inversion H; subst. reflexivity.
Qed.

End IsolationFacts.

Section RenderMore.

Context {U : Type} (ext : Externals U).
Local Open Scope list_scope.
Implicit Types (w : World U).

Lemma samePrivate_refl w : samePrivate w w.
Proof. repeat split. Qed.

Lemma samePrivate_set_dom w d : samePrivate w (set_page (set_dom d (page w)) w).
Proof. repeat split. Qed.


(** X7.  A render with no element empties the container it resolves, whatever
    the container holds, and never fails. *)
Theorem render_null_empties appName appContent container l rc phase w k :
  getContainer ext (or_else rc container) (page w) = Some k ->
  exists d',
    getRender ext appName appContent container None
      (mkRenderProps None l rc) phase w
    = (Fulfilled Undefined, set_page (set_dom d' (page w)) w)
    /\ Dom.childNodes (Dom.node d' k) = [].
Proof.
  intros Hget.
  destruct (clearContainer_ok
              (length (Dom.childNodes (Dom.node (dom (page w)) k))) k w (le_n _))
    as (d1 & Hclear & Hc1 & _).
  exists d1. split; [|exact Hc1].
  rewrite getRender_managed. cbn [remountContainer element].
  rewrite Hget. cbn [Dom.contains]. rewrite Hclear. reflexivity.
Qed.

(** A render leaves everything but the page and the trace as it was. *)
Lemma getRender_private appName appContent container legacy props phase w :
  samePrivate w (snd (getRender ext appName appContent container legacy props phase w)).
Proof.
  destruct legacy as [f|].
  - unfold getRender, then_, modify, resolve, call.
    destruct (development ext); cbv beta iota;
      match goal with |- context [fn_body f ?i ?p] =>
        destruct (fn_body f i p) as [o p'] end;
      repeat split.
  - rewrite getRender_managed.
    destruct (getContainer ext (or_else (remountContainer props) container) (page w))
      as [k|].
    + destruct (Dom.contains (dom (page w)) k (element props)).
      * apply samePrivate_refl.
      * destruct (clearContainer_ok
                    (length (Dom.childNodes (Dom.node (dom (page w)) k))) k w (le_n _))
          as (d1 & Hclear & _ & _).
        rewrite Hclear. destruct (element props) as [el|].
        -- cbn [page set_page dom set_dom].
           destruct (Dom.appendChild k el d1); repeat split.
        -- repeat split.
    + destruct (phase_eqb phase Unmounted); repeat split.
Qed.

(** A managed render calls no external function. *)
Lemma getRender_managed_trace appName appContent container props phase w :
  trace (snd (getRender ext appName appContent container None props phase w))
  = trace w.
Proof.
  rewrite getRender_managed.
  destruct (getContainer ext (or_else (remountContainer props) container) (page w))
    as [k|].
  - destruct (Dom.contains (dom (page w)) k (element props)); [reflexivity|].
    destruct (clearContainer_ok
                (length (Dom.childNodes (Dom.node (dom (page w)) k))) k w (le_n _))
      as (d1 & Hclear & _ & _).
    rewrite Hclear. destruct (element props) as [el|]; [|reflexivity].
    cbn [page set_page dom set_dom].
    destruct (Dom.appendChild k el d1); reflexivity.
  - destruct (phase_eqb phase Unmounted); reflexivity.
Qed.

(** X8.  A managed render (one without a legacy render function), whatever
    its arguments and however it ends, changes nothing but the tree of the
    document: the console, the clock and the rest of the page, the singular
    deferreds, the wrapper variables, the stored configuration, the map of
    [loadMicroApp] and the trace of the external calls are as they were. *)
Theorem render_frame appName appContent container props phase w :
  exists d',
    snd (getRender ext appName appContent container None props phase w)
    = set_page (set_dom d' (page w)) w.
Proof.
  rewrite getRender_managed.
  destruct (getContainer ext (or_else (remountContainer props) container) (page w))
    as [k|].
  - destruct (Dom.contains (dom (page w)) k (element props)).
    + exists (dom (page w)). symmetry. apply set_dom_same.
    + destruct (clearContainer_ok
                  (length (Dom.childNodes (Dom.node (dom (page w)) k))) k w (le_n _))
        as (d1 & Hclear & _ & _).
      rewrite Hclear. destruct (element props) as [el|]; [|exists d1; reflexivity].
      cbn [page set_page dom set_dom].
      destruct (Dom.appendChild k el d1) as [e|d2].
      * exists d1. reflexivity.
      * exists d2. reflexivity.
  - exists (dom (page w)).
    destruct (phase_eqb phase Unmounted); symmetry; apply set_dom_same.
Qed.

End RenderMore.

Section StepFacts.

Context {U : Type} (ext : Externals U).
Local Open Scope list_scope.
Implicit Types (w : World U) (ld : Loaded U).

(** A promise followed by a [return] ends in the world the promise left. *)
Lemma then_resolve_world {A B} (p : M U A) (b : B) w :
  snd (then_ p (fun _ => resolve b) w) = snd (p w).
Proof. unfold then_. destruct (p w) as [[a|e|] w']; reflexivity. Qed.

(** X9.  The fifth step of the unmount array, for a managed application.  Its
    render never fails, even when the container has gone, and empties the
    container when there is one; then the state channel of the instance is
    torn down; and when that has fulfilled the wrapper element is released. *)
Theorem unmountedStep_releases ld remount props w :
  render (l_app ld) = None ->
  exists w1,
    samePrivate w w1
    /\ trace w1 = trace w
    /\ (forall k,
          getContainer ext (or_else remount (container (l_app ld))) (page w) = Some k ->
          Dom.childNodes (Dom.node (dom (page w1)) k) = [])
    /\ unmountedStep ext ld remount props w
       = match call (sa_offGlobalStateChange (l_actions ld)) (l_appInstanceId ld) w1 with
         | (Fulfilled _, w2) =>
             (Fulfilled Undefined, set_cells (<[l_cell ld := None]> (cells w2)) w2)
         | (Rejected e, w2) => (Rejected e, w2)
         | (Pending, w2) => (Pending, w2)
         end.
Proof.
  intros Hr. unfold unmountedStep, render_of. rewrite Hr.
  destruct (getContainer ext (or_else remount (container (l_app ld))) (page w))
    as [k|] eqn:Hget.
  - destruct (clearContainer_ok
                (length (Dom.childNodes (Dom.node (dom (page w)) k))) k w (le_n _))
      as (d' & Hclear & Hkids & _).
    assert (Hrun : getRender ext (name (l_app ld)) (l_appContent ld)
                     (container (l_app ld)) None
                     (mkRenderProps None false remount) Unmounted w
                   = (Fulfilled Undefined, set_page (set_dom d' (page w)) w)).
    { rewrite getRender_managed. cbn [remountContainer element].
      rewrite Hget. cbn [Dom.contains]. rewrite Hclear. reflexivity. }
    exists (set_page (set_dom d' (page w)) w).
    split; [apply samePrivate_set_dom|]. split; [reflexivity|].
    split; [intros k' Hk'; inversion Hk'; subst; exact Hkids|].
    unfold then_ at 1. rewrite Hrun. unfold then_, writeWrapper, resolve.
    destruct (call _ _ _) as [[v|e|] w2]; reflexivity.
  - exists w. split; [apply samePrivate_refl|]. split; [reflexivity|].
    split; [discriminate|].
    unfold then_ at 1. rewrite getRender_managed.
    cbn [remountContainer element]. rewrite Hget. cbn [phase_eqb].
    unfold then_, writeWrapper, resolve.
    destruct (call _ _ _) as [[v|e|] w2]; reflexivity.
Qed.

(** [createElement] changes the page only. *)
Lemma createElement_private content strict w :
  samePrivate w (snd (createElement ext content strict w)).
Proof.
  unfold createElement, then_, pageOp, read, modify, openShadow, modify,
    resolve, throw.
  destruct (parseInto ext content (page w)) as [el p].
  destruct strict; [|repeat split].
  destruct (supportShadowDOM ext); cbn [negb]; [|repeat split].
  destruct el as [el|]; [|repeat split].
  destruct (attachShadow ext); repeat split.
Qed.

(** For a markup with a first child, [createElement] returns a new element,
    with or without strict isolation. *)
Lemma createElement_fresh content strict x w :
  parseFirstChild ext content = Some x ->
  fst (createElement ext content strict w) = Fulfilled (Some (S (nextNode (page w)))).
Proof.
  intros Hx. destruct (parseInto_child ext content x (page w) Hx) as (Hel & _ & _).
  destruct strict.
  - destruct (supportShadowDOM ext) eqn:Hs.
    + rewrite (createElement_strict ext content w _ Hs Hel). reflexivity.
    + rewrite (createElement_unsupported ext content w Hs), Hel. reflexivity.
  - rewrite createElement_plain, Hel. reflexivity.
Qed.

(** X10.  The third step of the mount array and the wrapper element.  While
    the element of the load is still there the step keeps it.  Once it has
    been released the step calls [createElement] on the content of the
    application with the strict isolation flag of the load, whatever the
    flag, and keeps what the call returns, whether or not the render that
    follows succeeds; when the content has a first child, that is a new
    element. *)
Theorem containerStep_wrapper ld remount props w :
  (forall el,
      cells w !! l_cell ld = Some (Some el) ->
      cells (snd (containerStep ext ld remount props w)) = cells w)
  /\ (cells w !! l_cell ld = Some None ->
      (forall el w1,
          createElement ext (l_appContent ld) (l_strictStyleIsolation ld) w
          = (Fulfilled el, w1) ->
          cells (snd (containerStep ext ld remount props w)) !! l_cell ld = Some el)
      /\ (forall x,
            parseFirstChild ext (l_appContent ld) = Some x ->
            cells (snd (containerStep ext ld remount props w)) !! l_cell ld
            = Some (Some (S (nextNode (page w)))))).
Proof.
  assert (Hstore : cells w !! l_cell ld = Some None ->
            forall el w1,
              createElement ext (l_appContent ld) (l_strictStyleIsolation ld) w
              = (Fulfilled el, w1) ->
              cells (snd (containerStep ext ld remount props w)) !! l_cell ld = Some el).
  { intros Hcell el w1 Hmade.
    pose proof (createElement_private (l_appContent ld) (l_strictStyleIsolation ld) w)
      as (_ & _ & Hsame & _).
    rewrite Hmade in Hsame. cbn [snd] in Hsame.
    unfold containerStep, readWrapper.
    unfold then_ at 1, read. rewrite Hcell. cbn [mjoin option_join].
    unfold then_ at 1. rewrite Hmade.
    change (cells (snd (then_ (render_of ext ld (mkRenderProps el true remount) Mounting)
                          (fun _ => resolve Undefined)
                          (set_cells (<[l_cell ld := el]> (cells w1)) w1)))
              !! l_cell ld = Some el).
    rewrite then_resolve_world.
    destruct (getRender_private ext (name (l_app ld)) (l_appContent ld)
                (container (l_app ld)) (render (l_app ld))
                (mkRenderProps el true remount) Mounting
                (set_cells (<[l_cell ld := el]> (cells w1)) w1))
      as (_ & _ & Hcells & _).
    unfold render_of. rewrite Hcells. cbn [cells set_cells].
    apply list_lookup_insert_eq. rewrite Hsame.
    eapply lookup_lt_Some. exact Hcell. }
  split.
  - intros el Hcell. unfold containerStep, readWrapper.
    unfold then_ at 1, read. rewrite Hcell. cbn [mjoin option_join].
    change (cells (snd (then_ (render_of ext ld (mkRenderProps (Some el) true remount) Mounting)
                          (fun _ => resolve Undefined)
                          (set_cells (<[l_cell ld := Some el]> (cells w)) w))) = cells w).
    rewrite then_resolve_world.
    destruct (getRender_private ext (name (l_app ld)) (l_appContent ld)
                (container (l_app ld)) (render (l_app ld))
                (mkRenderProps (Some el) true remount) Mounting
                (set_cells (<[l_cell ld := Some el]> (cells w)) w))
      as (_ & _ & Hcells & _).
    unfold render_of. rewrite Hcells. cbn [cells set_cells].
    now apply list_insert_id.
  - intros Hcell. split; [exact (Hstore Hcell)|].
    intros x Hx.
    pose proof (createElement_fresh (l_appContent ld) (l_strictStyleIsolation ld)
                  x w Hx) as Hfresh.
    apply (Hstore Hcell _
             (snd (createElement ext (l_appContent ld) (l_strictStyleIsolation ld) w))).
    rewrite <- Hfresh. apply surjective_pairing.
Qed.

End StepFacts.

Section LoadMore.

Context {U : Type} (ext : Externals U).
Local Open Scope list_scope.
Implicit Types (w : World U) (ld : Loaded U).

(** A call of an external function changes the page and the trace only. *)
Lemma call_private {I O} (f : ExtFn U I O) (i : I) w :
  samePrivate w (snd (call f i w)).
Proof.
  unfold call. destruct (fn_body f i (page w)) as [o p]. repeat split.
Qed.

(** A chain does not fulfil if its continuation does not, wherever the first
    promise fulfils. *)
Lemma then_unfulfilled {A B} (p : M U A) (f : A -> M U B) w :
  (forall a w1, p w = (Fulfilled a, w1) ->
                forall b w', f a w1 <> (Fulfilled b, w')) ->
  forall b w', then_ p f w <> (Fulfilled b, w').
Proof.
  intros Hf b w'. unfold then_.
  destruct (p w) as [[a|e|] w1] eqn:Hp; try discriminate.
  exact (Hf a w1 eq_refl b w').
Qed.

Lemma callsOnly_same allowed w w' : trace w' = trace w -> callsOnly allowed w w'.
Proof. intros H. exists []. rewrite app_nil_r. split; [exact H | constructor]. Qed.

Lemma callsOnly_trans allowed (w1 w2 w3 : World U) :
  callsOnly allowed w1 w2 -> callsOnly allowed w2 w3 -> callsOnly allowed w1 w3.
Proof.
  intros (m1 & H1 & F1) (m2 & H2 & F2). exists (m1 ++ m2).
  split; [rewrite H2, H1, app_assoc; reflexivity | now apply Forall_app].
Qed.

Lemma callsOnly_call {I O} allowed (f : ExtFn U I O) (i : I) w :
  In (fn_id f) allowed -> callsOnly allowed w (snd (call f i w)).
Proof.
  intros Hin. exists [fn_id f]. rewrite call_trace.
  split; [reflexivity | constructor; [exact Hin | constructor]].
Qed.

Lemma then_callsOnly {A B} allowed (p : M U A) (f : A -> M U B) :
  (forall w, callsOnly allowed w (snd (p w))) ->
  (forall a w, callsOnly allowed w (snd (f a w))) ->
  forall w, callsOnly allowed w (snd (then_ p f w)).
Proof.
  intros Hp Hf w. specialize (Hp w). unfold then_.
  destruct (p w) as [[a|e|] w1]; cbn [snd] in *; try exact Hp.
  eapply callsOnly_trans; [exact Hp | apply Hf].
Qed.

(** What follows a promise that does not fulfil makes no call. *)
Lemma then_callsOnly_stuck {A B} allowed (p : M U A) (f : A -> M U B) :
  (forall w, callsOnly allowed w (snd (p w))) ->
  (forall w a, fst (p w) <> Fulfilled a) ->
  forall w, callsOnly allowed w (snd (then_ p f w)).
Proof.
  intros Hp Hstuck w. specialize (Hp w). specialize (Hstuck w). unfold then_.
  destruct (p w) as [[a|e|] w1]; cbn [fst snd] in *; try exact Hp.
  now destruct (Hstuck a).
Qed.

Lemma forEach_callsOnly {A} allowed (l : list A) (f : A -> M U value) :
  (forall a w, callsOnly allowed w (snd (f a w))) ->
  forall w, callsOnly allowed w (snd (forEach l f w)).
Proof.
  intros Hf. induction l as [|x l IH]; cbn [forEach].
  - intros w. now apply callsOnly_same.
  - apply then_callsOnly; [apply Hf | intros _; exact IH].
Qed.

Lemma singularGate_callsOnly allowed (singular : Singular U) (app : LoadableApp U) :
  (forall id, In id (policyId singular) -> In id allowed) ->
  forall w, callsOnly allowed w (snd (singularGate singular app w)).
Proof.
  intros Hin. unfold singularGate. apply then_callsOnly.
  - destruct singular as [b|f]; cbn [validateSingularMode]; intros w.
    + now apply callsOnly_same.
    + apply callsOnly_call. apply Hin. now left.
  - intros sing w. apply callsOnly_same. destruct sing; [|reflexivity].
    unfold then_, read. destruct (prevAppUnmountedDeferred w); [|reflexivity].
    apply awaitDeferred_trace.
Qed.

Lemma createElement_trace content strict w :
  trace (snd (createElement ext content strict w)) = trace w.
Proof.
  unfold createElement, then_, pageOp, read, modify, openShadow, modify,
    resolve, throw.
  destruct (parseInto ext content (page w)) as [el p].
  destruct strict; [|reflexivity].
  destruct (supportShadowDOM ext); cbn [negb]; [|reflexivity].
  destruct el as [el|]; [|reflexivity].
  destruct (attachShadow ext); reflexivity.
Qed.

(** X11.  A managed application whose container cannot be found in any page
    is never loaded: [loadApp] does not fulfil, and of the functions with
    effects that it is given it calls only those that come before the render
    of the loading phase, namely [performanceMark], [importEntry], the
    singular predicate when the policy is one, and [css.process]; neither
    [createSandbox], nor a lifecycle hook, nor the scripts of the entry are
    among its calls. *)
Theorem loadApp_needs_container app cfg lc w :
  render app = None ->
  (forall p, getContainer ext (container app) p = None) ->
  (forall ld w', loadApp ext app cfg lc w <> (Fulfilled ld, w'))
  /\ callsOnly
       ([fn_id (performanceMark ext); fn_id (importEntry ext);
         fn_id (cssProcess ext)]
          ++ policyId (default (SingularFlag false) (singular cfg)))
       w (snd (loadApp ext app cfg lc w)).
Proof.
  intros Hrender Hmissing.
  assert (Hstuck : forall appName appContent props w0 v,
            remountContainer props = None ->
            fst (getRender ext appName appContent (container app) None props
                   Loading w0) <> Fulfilled v).
  { intros appName appContent props w0 v Hnone.
    rewrite getRender_managed, Hnone. cbn [or_else truthy].
    rewrite Hmissing. cbn [phase_eqb]. discriminate. }
  split.
  - unfold loadApp, loadAppAs. cbv zeta. rewrite Hrender.
    repeat (apply then_unfulfilled; intros ? ? ?).
    match goal with
    | H : getRender _ ?n ?c _ _ ?pr _ ?w0 = (Fulfilled ?v, _) |- _ =>
        exfalso; apply (Hstuck n c pr w0 v eq_refl); rewrite H; reflexivity
    end.
  - revert w. unfold loadApp.
    apply then_callsOnly; [intros w; now apply callsOnly_same|]. intros now.
    apply then_callsOnly.
    { intros w. apply callsOnly_same. unfold pageOp.
      destruct (random1000 (page w)). reflexivity. }
    intros suffix. unfold loadAppAs. cbv zeta. rewrite Hrender.
    apply then_callsOnly.
    { destruct (development ext).
      - apply then_callsOnly; [|intros _ w; now apply callsOnly_same].
        intros w. apply callsOnly_call. now left.
      - intros w. now apply callsOnly_same. }
    intros _. apply then_callsOnly.
    { intros w. apply callsOnly_call. right. now left. }
    intros imported. apply then_callsOnly.
    { apply singularGate_callsOnly. intros id Hid.
      apply in_or_app. now right. }
    intros _. apply then_callsOnly.
    { intros w. apply callsOnly_same. apply createElement_trace. }
    intros appWrapperElement. apply then_callsOnly.
    { intros w. now apply callsOnly_same. }
    intros cell. apply then_callsOnly.
    { destruct appWrapperElement as [el|]; [|intros w; now apply callsOnly_same].
      destruct (isEnableScopedCSS ext _); [|intros w; now apply callsOnly_same].
      apply then_callsOnly; [intros w; now apply callsOnly_same|].
      intros styles. apply forEach_callsOnly.
      intros st w. apply callsOnly_call. right. right. now left. }
    intros _. apply then_callsOnly_stuck.
    + intros w. apply callsOnly_same. apply getRender_managed_trace.
    + intros w v. now apply Hstuck.
Qed.

Lemma then_captures {A} app cfg (p : M U A) (f : A -> M U (Loaded U)) w :
  (forall a w1, p w = (Fulfilled a, w1) ->
                forall ld w', f a w1 = (Fulfilled ld, w') -> captures ext app cfg ld) ->
  forall ld w', then_ p f w = (Fulfilled ld, w') -> captures ext app cfg ld.
Proof.
  intros Hf ld w'. unfold then_.
  destruct (p w) as [[a|e|] w1] eqn:Hp; try discriminate.
  exact (Hf a w1 eq_refl ld w').
Qed.

Lemma loadAppAs_captures id app cfg lc w ld w' :
  loadAppAs ext id app cfg lc w = (Fulfilled ld, w') -> captures ext app cfg ld.
Proof.
  revert ld w'. unfold loadAppAs. cbv zeta.
  repeat (apply then_captures; intros ? ? ?).
  match goal with sb : (Global * _ * _)%type |- _ => destruct sb as [[g m] u] end.
  repeat (apply then_captures; intros ? ? ?).
  match goal with
  | H : getLifecyclesFromExports _ _ _ _ _ = (Fulfilled ?found, _) |- _ =>
      apply getLifecyclesFromExports_sound in H; destruct found as [x|]
  end; intros ld w' Hld; inversion Hld; subst; clear Hld.
  unfold captures. cbn.
  repeat split; try assumption.
  all: match goal with
       | Hsb : (if sandboxEnabled ?s then _ else _) _ = (Fulfilled _, _),
         Hoff : sandboxEnabled ?s = false |- _ =>
           rewrite Hoff in Hsb; inversion Hsb; reflexivity
       end.
Qed.

(** X12.  What a fulfilled [loadApp] has captured: the descriptor it was given;
    exports that have passed the validation of the lifecycle functions;
    the singular policy of the configuration, [false] when it has none; the
    strict isolation of the [sandbox] object; and, when the sandbox is
    switched off, the window as global and no sandbox to mount or unmount. *)
Theorem loadApp_captures app cfg lc w ld w' :
  loadApp ext app cfg lc w = (Fulfilled ld, w') ->
  l_app ld = app
  /\ validateExportLifecycle ext (Some (l_exports ld)) = true
  /\ l_singular ld = default (SingularFlag false) (singular cfg)
  /\ l_strictStyleIsolation ld
     = match default (SandboxFlag true) (sandbox cfg) with
       | SandboxObj strict _ _ => strict
       | SandboxFlag _ => false
       end
  /\ l_enableScopedCSS ld
     = isEnableScopedCSS ext (Some (default (SandboxFlag true) (sandbox cfg)))
  /\ (sandboxEnabled (default (SandboxFlag true) (sandbox cfg)) = false ->
      l_global ld = Window /\ l_mountSandbox ld = None /\ l_unmountSandbox ld = None).
Proof.
  intros H. unfold loadApp, then_ at 1 2, read, pageOp, random1000 in H.
  cbn [page set_page] in H.
  exact (loadAppAs_captures _ app cfg lc _ ld w' H).
Qed.

(** X13.  An application loaded under a configuration that does not ask for
    singular mode takes no part in the hand-over between applications: the
    three steps of its mount and unmount arrays that deal with the singular
    deferred fulfil at once and change nothing, in any world. *)
Theorem unconfigured_singular_inert app cfg lc w ld w' :
  singular cfg = None \/ singular cfg = Some (SingularFlag false) ->
  loadApp ext app cfg lc w = (Fulfilled ld, w') ->
  forall props w2,
    singularWaitStep ld props w2 = (Fulfilled Undefined, w2)
    /\ singularIssueStep ld props w2 = (Fulfilled Undefined, w2)
    /\ singularResolveStep ld props w2 = (Fulfilled Undefined, w2).
Proof.
  intros Hcfg H props w2.
  unfold loadApp, then_ at 1 2, read, pageOp, random1000 in H.
  cbn [page set_page] in H.
  destruct (loadAppAs_captures _ app cfg lc _ ld w' H) as (_ & _ & Hs & _).
  assert (Hoff : l_singular ld = SingularFlag false)
    by (destruct Hcfg as [Hc|Hc]; rewrite Hs, Hc; reflexivity).
  rewrite (wait_static ld false props w2 Hoff),
    (issue_static ld false props w2 Hoff),
    (release_static ld false props w2 Hoff).
  repeat split.
Qed.


End LoadMore.

Section SingularMore.

Context {U : Type}.
Local Open Scope list_scope.
Implicit Types (w : World U) (ld : Loaded U).

(** X15.  The hand-over between singular applications.  Once the mount of one
    has issued the deferred, the deferred is held, and the mount of any other
    waits at its second step; once the unmount of some load has resolved the
    deferred, the same step passes. *)
Theorem singular_mount_blocks ld1 ld2 ld3 props w :
  l_singular ld1 = SingularFlag true ->
  l_singular ld2 = SingularFlag true ->
  l_singular ld3 = SingularFlag true ->
  exists w1 w2,
    singularIssueStep ld1 props w = (Fulfilled Undefined, w1)
    /\ tokenHeld (length (deferreds w)) w1
    /\ singularWaitStep ld2 props w1 = (Pending, w1)
    /\ singularResolveStep ld3 props w1 = (Fulfilled Undefined, w2)
    /\ singularWaitStep ld2 props w2 = (Fulfilled Undefined, w2).
Proof.
  intros H1 H2 H3. do 2 eexists.
  split; [apply (issue_static ld1 true props w H1)|].
  cbv beta iota.
  assert (Hnew : (deferreds w ++ [mkDeferred false (l_cell ld1) []])
                   !! length (deferreds w)
                 = Some (mkDeferred false (l_cell ld1) [])).
  { apply list_lookup_middle. reflexivity. }
  split.
  { split; [reflexivity|]. eexists. split; [exact Hnew | reflexivity]. }
  split.
  { rewrite (wait_static ld2 true props _ H2).
    cbn [prevAppUnmountedDeferred set_prev set_deferreds].
    unfold awaitDeferred. cbn [deferreds set_prev set_deferreds].
    rewrite Hnew. reflexivity. }
  split; [apply (release_static ld3 true props _ H3)|].
  rewrite (wait_static ld2 true props _ H2).
  cbn [prevAppUnmountedDeferred set_prev set_deferreds].
  unfold awaitDeferred. cbn [deferreds set_prev set_deferreds].
  rewrite list_lookup_alter_eq, Hnew. reflexivity.
Qed.

End SingularMore.

Section MicroAppMore.

Context {U : Type} (ext : Externals U).
Local Open Scope list_scope.
Implicit Types (w : World U).

(** X16.  The map of [loadMicroApp] is keyed by the name and the container alone.
    A call for a descriptor with the name and the container of a load the map
    holds gets the getter of that load: its own entry, props, configuration
    and lifecycle hooks are not looked at, and no external function is
    called. *)
Theorem memorizedLoadingFn_first_wins
    (app1 app2 : LoadableApp U) cfg1 cfg2 lc1 lc2 w key promise :
  name app2 = name app1 ->
  container app2 = container app1 ->
  cacheKey ext app1 (page w) = Some key ->
  appConfigPormiseGetterMap w !! key = Some promise ->
  memorizedLoadingFn ext app2 cfg2 lc2 w = memorizedLoadingFn ext app1 cfg1 lc1 w
  /\ snd (memorizedLoadingFn ext app2 cfg2 lc2 w) = w.
Proof.
  intros Hname Hcont Hkey Hhit.
  assert (Hkey2 : cacheKey ext app2 (page w) = Some key)
    by (unfold cacheKey in *; rewrite Hname, Hcont; exact Hkey).
  unfold memorizedLoadingFn, then_, read.
  rewrite Hkey, Hkey2, Hcont. cbn [mbind option_bind]. rewrite Hhit.
  destruct promise; split; reflexivity.
Qed.

(** X17.  A descriptor whose container is absent or the empty string has no key:
    every call loads the application afresh, and the call itself puts nothing
    in the map. *)
Theorem memorizedLoadingFn_uncached (app : LoadableApp U) cfg lc w :
  truthy (container app) = false ->
  memorizedLoadingFn ext app cfg lc w
  = (configOf ext (container app)
       (fst (loadApp ext app (default (frameworkConfiguration w) cfg) lc w)),
     snd (loadApp ext app (default (frameworkConfiguration w) cfg) lc w)).
Proof.
  intros Hfalsy.
  apply memorizedLoadingFn_no_key.
  - unfold cacheKey. destruct (container app) as [c|]; [|reflexivity].
    rewrite Hfalsy. reflexivity.
  - destruct (loadApp ext app _ lc w); reflexivity.
Qed.

End MicroAppMore.

Section RegisterFacts.

Context {U : Type}.
Local Open Scope list_scope.
Implicit Types (apps microApps : list (RegistrableApp U)) (w : World U).

Lemma alreadyRegistered_In microApps (app : RegistrableApp U) :
  alreadyRegistered microApps app = true
  <-> In (name (r_app app)) (namesOf microApps).
Proof.
  unfold alreadyRegistered, namesOf. rewrite existsb_exists, in_map_iff.
  split; intros (m & H1 & H2); exists m.
  - split; [|exact H1]. now apply String.eqb_eq.
  - split; [exact H2|]. now apply String.eqb_eq.
Qed.

Lemma alreadyRegistered_app microApps more (app : RegistrableApp U) :
  alreadyRegistered (microApps ++ more) app
  = alreadyRegistered microApps app || alreadyRegistered more app.
Proof. unfold alreadyRegistered. apply existsb_app. Qed.

Lemma unregisteredApps_In apps microApps (app : RegistrableApp U) :
  In app (unregisteredApps apps microApps)
  <-> In app apps /\ ~ In (name (r_app app)) (namesOf microApps).
Proof.
  unfold unregisteredApps. rewrite List.filter_In, negb_true_iff.
  rewrite <- alreadyRegistered_In.
  destruct (alreadyRegistered microApps app); intuition congruence.
Qed.

Lemma filter_none {A} (p : A -> bool) (l : list A) :
  (forall x, In x l -> p x = false) -> List.filter p l = [].
Proof.
  induction l as [|x l IH]; intros H; [reflexivity|].
  cbn [List.filter]. rewrite (H x (or_introl eq_refl)).
  apply IH. intros y Hy. apply H. now right.
Qed.

Lemma NoDup_map_filter {A B} (f : A -> B) (p : A -> bool) (l : list A) :
  NoDup (map f l) -> NoDup (map f (List.filter p l)).
Proof.
  induction l as [|x l IH]; intros H; [exact H|].
  cbn [map] in H. apply NoDup_cons in H. destruct H as [Hx Hl].
  cbn [List.filter]. destruct (p x); [|exact (IH Hl)].
  cbn [map]. apply NoDup_cons. split; [|exact (IH Hl)].
  intros Hin. apply Hx.
  apply list_elem_of_In in Hin. apply list_elem_of_In.
  apply in_map_iff in Hin. destruct Hin as (y & Hy & Hiny).
  apply List.filter_In in Hiny. apply in_map_iff. exists y. tauto.
Qed.

(** X18.  Registering a batch a second time registers nothing: the list of
    registered applications stays as the first call left it and
    [registerApplication] is not called. *)
Theorem registerMicroApps_idempotent (api : ApiExternals U) apps microApps :
  registerMicroApps api apps (fst (registerMicroApps api apps microApps))
  = (fst (registerMicroApps api apps microApps), resolve tt).
Proof.
  unfold registerMicroApps. cbn [fst].
  assert (Hnone : unregisteredApps apps (microApps ++ unregisteredApps apps microApps)
                  = []).
  { unfold unregisteredApps at 1. apply filter_none. intros app Hin.
    rewrite negb_false_iff, alreadyRegistered_app.
    destruct (alreadyRegistered microApps app) eqn:E; [reflexivity|].
    cbn [orb]. apply alreadyRegistered_In. unfold namesOf.
    apply in_map_iff. exists app. split; [reflexivity|].
    apply unregisteredApps_In. split; [exact Hin|].
    rewrite <- alreadyRegistered_In, E. discriminate. }
  rewrite Hnone. cbn [forEach]. rewrite app_nil_r. reflexivity.
Qed.

(** X19.  Applications are told apart by name.  The applications a call adds are
    those of the batch whose name was not registered before, so when the
    names registered so far are distinct and those of the batch are distinct,
    the names registered after the call are distinct. *)
Theorem registerMicroApps_distinct (api : ApiExternals U) apps microApps :
  NoDup (namesOf microApps) ->
  NoDup (namesOf apps) ->
  NoDup (namesOf (fst (registerMicroApps api apps microApps)))
  /\ forall app : RegistrableApp U,
       In app (fst (registerMicroApps api apps microApps))
       <-> In app microApps
           \/ (In app apps /\ ~ In (name (r_app app)) (namesOf microApps)).
Proof.
  intros Hold Hnew. unfold registerMicroApps. cbn [fst]. split.
  - unfold namesOf. rewrite map_app. apply NoDup_app.
    split; [exact Hold|]. split.
    + intros n Hn Hin. apply list_elem_of_In in Hn. apply list_elem_of_In in Hin.
      apply in_map_iff in Hin. destruct Hin as (app & <- & Happ).
      apply unregisteredApps_In in Happ. destruct Happ as [_ Hfresh].
      exact (Hfresh Hn).
    + apply NoDup_map_filter. exact Hnew.
  - intros app. rewrite in_app_iff, unregisteredApps_In. reflexivity.
Qed.

End RegisterFacts.

Section ApiFacts.

Context {U : Type} (ext : Externals U) (api : ApiExternals U).
Local Open Scope list_scope.
Implicit Types (w : World U) (opts : StartOptions U).

Lemma callLoader_private (loader : option (ExtFn U bool value)) b w :
  samePrivate w (snd (callLoader loader b w)).
Proof.
  destruct loader as [f|]; [apply call_private | apply samePrivate_refl].
Qed.

(** X20.  An application registered with [registerMicroApps] and activated
    by single-spa.  Before [start] its loading function calls [loader(true)]
    and, when that call has returned, waits: it ends pending in the world the
    loader left, or as the loader did if the loader failed; it does not
    fulfil and loads nothing.  After [start] it loads the application, once
    [loader(true)] has returned, under the configuration that is stored when
    the application is activated, and not the one of the time it was
    registered; the mount array it answers is that of the load between
    [loader(true)] and [loader(false)]. *)
Theorem registeredApp_after_start (app : RegistrableApp U) lc w :
  registeredApp ext false app lc w
  = match callLoader (r_loader app) true w with
    | (Fulfilled _, w1) => (Pending, w1)
    | (Rejected e, w1) => (Rejected e, w1)
    | (Pending, w1) => (Pending, w1)
    end
  /\ (forall pc w', registeredApp ext false app lc w <> (Fulfilled pc, w'))
  /\ cells (snd (registeredApp ext false app lc w)) = cells w
  /\ (forall v w1 ld w2,
        callLoader (r_loader app) true w = (Fulfilled v, w1) ->
        loadApp ext (r_app app) (frameworkConfiguration w) lc w1 = (Fulfilled ld, w2) ->
        exists pc,
          registeredApp ext true app lc w = (Fulfilled pc, w2)
          /\ pc_mount pc
             = (fun _ => callLoader (r_loader app) true)
                 :: mountSteps ext ld None
                 ++ [fun _ => callLoader (r_loader app) false]
          /\ pc_unmount pc = unmountSteps ext ld None).
Proof.
  pose proof (callLoader_private (r_loader app) true w) as Hp.
  unfold registeredApp.
  split; [|split; [|split]].
  - unfold then_ at 1.
    destruct (callLoader (r_loader app) true w) as [[v|e|] w1]; reflexivity.
  - intros pc w'. unfold then_ at 1.
    destruct (callLoader (r_loader app) true w) as [[v|e|] w1]; discriminate.
  - unfold then_ at 1.
    destruct (callLoader (r_loader app) true w) as [[v|e|] w1];
      destruct Hp as (_ & _ & Hc & _); exact Hc.
  - intros v w1 ld w2 Hload Happ. rewrite Hload in Hp.
    destruct Hp as (_ & _ & _ & Hcfg & _). cbn [snd] in Hcfg.
    unfold then_ at 1. rewrite Hload.
    unfold awaitStarted, then_ at 1, resolve.
    unfold then_ at 1, read. rewrite Hcfg.
    unfold then_. rewrite Happ.
    eexists. split; [reflexivity|]. split; reflexivity.
Qed.

(** X21.  [start] stores the configuration under which registered
    applications are loaded.  For [singular] it stores what
    [{ singular: true, ...opts }] holds: [true] when the options have no such
    key, and otherwise the value of the key, [undefined] included; this
    however [start] ends.  When it fulfils, the stored sandbox is what
    [{ sandbox: true, ...opts }] holds, made loose when it is enabled and the
    host has no [Proxy]; the prefetch strategy was started, before
    single-spa, exactly when [{ prefetch: true, ...opts }] holds a truthy
    prefetch; and nothing but the configuration, the page and the trace has
    changed. *)
Theorem start_configuration microApps opts w :
  singular (frameworkConfiguration (snd (start api microApps opts w)))
  = overDefault (SingularFlag true) (o_singular opts)
  /\ forall w',
       start api microApps opts w = (Fulfilled tt, w') ->
       frameworkConfiguration w'
       = {| singular := overDefault (SingularFlag true) (o_singular opts);
            sandbox := storedSandbox api opts;
            excludeAssetFilter := o_excludeAssetFilter opts;
            importEntryOpts := o_others opts |}
       /\ trace w'
          = trace w
              ++ (if prefetchOn (overDefault (PrefetchFlag true) (o_prefetch opts))
                  then [fn_id (doPrefetchStrategy api)] else [])
              ++ [fn_id (startSingleSpa api)]
       /\ prevAppUnmountedDeferred w' = prevAppUnmountedDeferred w
       /\ deferreds w' = deferreds w
       /\ cells w' = cells w
       /\ appConfigPormiseGetterMap w' = appConfigPormiseGetterMap w.
Proof.
  unfold start, storedSandbox, prefetchOn. cbv zeta.
  destruct (overDefault (PrefetchFlag true) (o_prefetch opts)) as [pf|];
    [destruct (prefetchEnabled pf)|];
    (destruct (overDefault (SandboxFlag true) (o_sandbox opts)) as [sb|];
     [destruct (sandboxEnabled sb)|]);
    destruct (windowProxy api);
    destruct (notSingular (overDefault (SingularFlag true) (o_singular opts)));
    unfold then_, call, modify, resolve;
    cbn [page set_page set_frameworkConfiguration record negb andb];
    repeat match goal with
           | |- context [fn_body ?f ?i ?p] =>
               destruct (fn_body f i p) as [[?|?|] ?]
           end;
    (split; [reflexivity|]);
    intros w' Hw'; inversion Hw'; subst; clear Hw';
    cbn [frameworkConfiguration trace prevAppUnmountedDeferred deferreds cells
         appConfigPormiseGetterMap set_page set_frameworkConfiguration record];
    rewrite <- ?app_assoc; repeat split.
Qed.

End ApiFacts.

(** ** Worked examples of the further properties *)

Section FurtherExamples.

Import Sample SampleApis.
Local Open Scope list_scope.

Lemma legacy_isolation_conflict_witness :
  appMountStep (ext0 false) loadLegacyStrict Undefined world0
  = (Rejected (Error "[qiankun]: strictStyleIsolation can not be used with legacy render!"),
     world0).
Proof.
  destruct (legacy_isolation_conflict (ext0 false) loadLegacyStrict (noting 70)
              Undefined world0 eq_refl (or_introl eq_refl))
    as (msg & Hmount & _ & ->).
  exact Hmount.
Defined.

Lemma released_wrapper_fails_witness :
  appMountStep (ext0 false) loadA Undefined world2
  = (Rejected (Error "[qiankun] Wrapper element for shop with instance shop_1600000000000_7 is not existed!"),
     world2).
Proof.
  exact (proj1 (released_wrapper_fails (ext0 false) loadA Undefined world2
                  eq_refl eq_refl)).
Defined.

Lemma scoped_attribute_kept_witness :
  exists w',
    getAppWrapperGetter (ext0 false) "shop" "shop_1600000000000_7" false false true
      (resolve (Some 1)) world0 = (Fulfilled (Some (LightRoot 1)), w')
    /\ Dom.attributes (Dom.node (dom (page w')) 1) !! "data-qiankun" = Some "shop"%string.
Proof.
  destruct (scoped_attribute_kept (ext0 false) "shop" "shop_1600000000000_7" 1
              world0 ltac:(discriminate))
    as (w' & Hrun & Hattr & _).
  exists w'. split; [exact Hrun|].
  transitivity (Some (rewriteAttrAfter
                        (Dom.attributes (Dom.node (dom (page world0)) 1)
                           !! "data-qiankun") "shop")); [exact Hattr|].
  vm_compute. reflexivity.
Defined.

Lemma strict_isolation_container_witness :
  exists el w',
    then_ (createElement (ext0 true) "<div>shop</div>" true)
      (fun e => getAppWrapperGetter (ext0 true) "shop" "shop_1600000000000_7"
                  false true false (resolve e)) world0
    = (Fulfilled (Some (ShadowRootOf el)), w').
Proof.
  destruct (strict_isolation_container (ext0 true) "<div>shop</div>"
              (Dom.set_innerHTML "<main>shop</main>" Dom.blank)
              "shop" "shop_1600000000000_7" world0 eq_refl eq_refl)
    as (el & w' & Hrun & _).
  exists el, w'. exact Hrun.
Defined.

Lemma getLifecyclesFromExports_valid_witness :
  getLifecyclesFromExports (ext0 false) (Some exports0) "shop" Window world0
  = (Fulfilled (Some exports0), world0).
Proof.
  exact (proj1 (getLifecyclesFromExports_valid (ext0 false) (Some exports0)
                  "shop" Window world0) eq_refl).
Defined.

Lemma render_null_empties_witness :
  exists d',
    getRender (ext0 false) "shop" "" (Some (Handle 1)) None
      (mkRenderProps None false None) Unmounted worldMounted
    = (Fulfilled Undefined, set_page (set_dom d' (page worldMounted)) worldMounted)
    /\ Dom.childNodes (Dom.node d' 1) = [].
Proof.
  exact (render_null_empties (ext0 false) "shop" "" (Some (Handle 1)) false None
           Unmounted worldMounted 1 eq_refl).
Defined.

Lemma render_frame_witness :
  exists d',
    snd (getRender (ext0 false) "shop" "" (Some (Selector "#root")) None
           (mkRenderProps (Some 3) true None) Mounting world0)
    = set_page (set_dom d' (page world0)) world0.
Proof.
  exact (render_frame (ext0 false) "shop" "" (Some (Selector "#root"))
           (mkRenderProps (Some 3) true None) Mounting world0).
Defined.

Lemma unmountedStep_releases_witness :
  exists w1,
    samePrivate worldMounted w1
    /\ trace w1 = trace worldMounted
    /\ Dom.childNodes (Dom.node (dom (page w1)) 1) = [].
Proof.
  destruct (unmountedStep_releases (ext0 false) loadA None Undefined worldMounted
              eq_refl)
    as (w1 & Hprivate & Htrace & Hkids & _).
  exists w1. split; [exact Hprivate|]. split; [exact Htrace|].
  apply Hkids. reflexivity.
Defined.

Lemma containerStep_wrapper_witness :
  cells (snd (containerStep (ext0 false) loadA None Undefined worldMounted))
  = cells worldMounted
  /\ cells (snd (containerStep (ext0 true) loadStrict None Undefined world2)) !! 0
     = Some (Some 5).
Proof.
  split.
  - exact (proj1 (containerStep_wrapper (ext0 false) loadA None Undefined worldMounted)
             3 eq_refl).
  - exact (proj2 (proj2 (containerStep_wrapper (ext0 true) loadStrict None Undefined
                           world2) eq_refl)
             (Dom.set_innerHTML "<main>shop</main>" Dom.blank) eq_refl).
Defined.

Lemma loadApp_needs_container_witness :
  render homeless = None
  /\ (forall ld w',
        loadApp (ext0 false) homeless cfg0 None world0 <> (Fulfilled ld, w'))
  /\ callsOnly [23; 20; 22] world0
       (snd (loadApp (ext0 false) homeless cfg0 None world0)).
Proof.
  split; [reflexivity|].
  apply (loadApp_needs_container (ext0 false) homeless cfg0 None world0 eq_refl).
  intros p. reflexivity.
Defined.

Lemma loadApp_captures_witness :
  exists ld w',
    loadApp (ext0 false) app0 cfgBare None world0 = (Fulfilled ld, w')
    /\ l_app ld = app0
    /\ l_singular ld = SingularFlag false.
Proof.
  destruct (loadApp (ext0 false) app0 cfgBare None world0)
    as [[ld|e|] w'] eqn:Hload; try (vm_compute in Hload; discriminate).
  exists ld, w'. split; [reflexivity|].
  destruct (loadApp_captures (ext0 false) app0 cfgBare None world0 ld w' Hload)
    as (Happ & _ & Hsingular & _).
  split; [exact Happ | exact Hsingular].
Defined.

Lemma unconfigured_singular_inert_witness :
  exists ld w',
    loadApp (ext0 false) app0 cfgBare None world0 = (Fulfilled ld, w')
    /\ singularWaitStep ld Undefined worldBusy = (Fulfilled Undefined, worldBusy).
Proof.
  destruct (loadApp (ext0 false) app0 cfgBare None world0)
    as [[ld|e|] w'] eqn:Hload; try (vm_compute in Hload; discriminate).
  exists ld, w'. split; [reflexivity|].
  exact (proj1 (unconfigured_singular_inert (ext0 false) app0 cfgBare None world0
                  ld w' (or_introl eq_refl) Hload Undefined worldBusy)).
Defined.


Lemma singular_mount_blocks_witness :
  exists w1 w2,
    singularIssueStep loadA Undefined world2 = (Fulfilled Undefined, w1)
    /\ singularWaitStep loadB Undefined w1 = (Pending, w1)
    /\ singularResolveStep loadA Undefined w1 = (Fulfilled Undefined, w2)
    /\ singularWaitStep loadB Undefined w2 = (Fulfilled Undefined, w2).
Proof.
  destruct (singular_mount_blocks loadA loadB loadA Undefined world2
              eq_refl eq_refl eq_refl)
    as (w1 & w2 & Hissue & _ & Hwait & Hrelease & Hpass).
  exists w1, w2. repeat split; assumption.
Defined.

Lemma memorizedLoadingFn_first_wins_witness :
  memorizedLoadingFn (ext0 false) app0_moved None None world_cached
  = memorizedLoadingFn (ext0 false) app0 None None world_cached.
Proof.
  exact (proj1 (memorizedLoadingFn_first_wins (ext0 false) app0 app0_moved
                  None None None None world_cached "shop-/html/body/div[1]"
                  (Fulfilled (loaded0 0 (SingularFlag true) noLifeCycles))
                  eq_refl eq_refl eq_refl eq_refl)).
Defined.

Lemma memorizedLoadingFn_uncached_witness :
  snd (memorizedLoadingFn (ext0 false) unplaced None None world0)
  = snd (loadApp (ext0 false) unplaced cfg0 None world0).
Proof.
  rewrite (memorizedLoadingFn_uncached (ext0 false) unplaced None None world0 eq_refl).
  reflexivity.
Defined.

Lemma registerMicroApps_distinct_witness :
  NoDup (namesOf (fst (registerMicroApps (api0 true) [shop; blog] [shop]))).
Proof.
  apply (registerMicroApps_distinct (api0 true) [shop; blog] [shop]).
  - apply NoDup_singleton.
  - apply NoDup_cons. split; [|apply NoDup_singleton].
    intros Hin. apply list_elem_of_singleton in Hin. discriminate Hin.
Defined.

Lemma registeredApp_after_start_witness :
  exists w1,
    registeredApp (ext0 false) false shop None world0 = (Pending, w1)
    /\ trace w1 = [63].
Proof.
  eexists. split.
  - rewrite (proj1 (registeredApp_after_start (ext0 false) shop None world0)).
    reflexivity.
  - reflexivity.
Defined.

Lemma start_configuration_witness :
  (exists w',
     start (api0 false) [shop; blog] noOptions world0 = (Fulfilled tt, w')
     /\ singular (frameworkConfiguration w') = Some (SingularFlag true)
     /\ sandbox (frameworkConfiguration w') = Some (SandboxObj false false true)
     /\ trace w' = [62; 61])
  /\ (exists w',
        start (api0 false) [shop; blog] undefinedOptions world0 = (Fulfilled tt, w')
        /\ singular (frameworkConfiguration w') = None
        /\ sandbox (frameworkConfiguration w') = None).
Proof.
  split.
  - destruct (start (api0 false) [shop; blog] noOptions world0)
      as [[[]|e|] w'] eqn:Hstart; try (vm_compute in Hstart; discriminate).
    exists w'. split; [reflexivity|].
    destruct (proj2 (start_configuration (api0 false) [shop; blog] noOptions world0)
                w' Hstart) as (Hcfg & Htrace & _).
    rewrite Hcfg, Htrace. repeat split.
  - destruct (start (api0 false) [shop; blog] undefinedOptions world0)
      as [[[]|e|] w'] eqn:Hstart; try (vm_compute in Hstart; discriminate).
    exists w'. split; [reflexivity|].
    destruct (proj2 (start_configuration (api0 false) [shop; blog] undefinedOptions
                       world0) w' Hstart) as (Hcfg & _).
    rewrite Hcfg. split; reflexivity.
Defined.

End FurtherExamples.
